(** * PEX: the PredicateRelatedField evaluation handler and the PEX facade

    A shallow embedding of

    - [lib/evaluation/predicateRelatedFieldEvaluationHandler.ts]
      (class [PredicateRelatedFieldEvaluationHandler]),
    - [lib/PEX.ts] (class [PEX]),
    - the [FilterV2] model interface,
    - the limit-disclosure handler, as section 4.5 of the specification
      describes it,

    together with the properties their specification states about them
    and further properties of the code.  The definitions come first:
    JavaScript values, the data model, the handler, limit disclosure,
    [PEX].  The properties follow, module by module.

    Conventions.  JavaScript values that the code treats as [any] are
    trees of type [JSON].  A string is a sequence of code units below 256
    (Rocq's [string]); a number is an integer ([Z]): no claim below depends
    on fractions, and the only numbers compared are array indices.  A
    [void] method that mutates an argument returns the final content of
    that argument.  An exception is an [Exception] carried by
    [Completion]. *)

From Stdlib Require Import List String Ascii ZArith Bool Arith Lia.
From Stdlib Require Import DecimalString DecimalNat.
From Equations Require Import Equations.
From stdpp Require Import base list strings.
Import ListNotations.
Open Scope string_scope.
Open Scope list_scope.
Open Scope nat_scope.
Set Warnings "-register-all".

(* ================================================================== *)
(** * JavaScript values and the built-ins the sources call             *)
(* ================================================================== *)

Module JS.

(** A value of type [any]: [undefined], [null], a boolean, a number, a
    string, an array or a plain object.  The properties of an object are
    kept in insertion order. *)
Inductive JSON : Type :=
| JUndefined
| JNull
| JBool (b : bool)
| JNum (n : Z)
| JStr (s : string)
| JArr (items : list JSON)
| JObj (props : list (string * JSON)).

(** What a [throw] carries. *)
Inductive Exception : Type :=
| TypeError                 (* property access on [undefined] *)
| SyntaxError               (* [JSON.parse] of something that is no JSON text *)
| ErrorObject (message : string)   (* [throw Error(message)] *)
| ThrownValue (v : JSON).          (* [throw v] for any other value *)

(** How a call ends: it returns or it throws. *)
Inductive Completion (A : Type) : Type :=
| Normal (a : A)
| Throw (e : Exception).
Arguments Normal {A} a.
Arguments Throw {A} e.

Definition bind {A B} (c : Completion A) (k : A -> Completion B) : Completion B :=
  match c with
  | Normal a => k a
  | Throw e => Throw e
  end.

(** [ToBoolean]. *)
Definition truthy (v : JSON) : bool :=
  match v with
  | JUndefined | JNull => false
  | JBool b => b
  | JNum n => negb (n =? 0)%Z
  | JStr s => negb (String.eqb s "")
  | JArr _ | JObj _ => true
  end.

Fixpoint assoc (k : string) (ps : list (string * JSON)) : option JSON :=
  match ps with
  | [] => None
  | (k', v) :: rest => if String.eqb k k' then Some v else assoc k rest
  end.

(** [v.k] for a property name [k] that no prototype defines ([result],
    [path], [value], [presentation_submission], ...): only a plain object
    can hold it; every other value that admits property access answers
    [undefined]. *)
Definition member (v : JSON) (k : string) : JSON :=
  match v with
  | JObj ps => default JUndefined (assoc k ps)
  | _ => JUndefined
  end.

(** [o.k = v] on the property list of [o]: an existing property keeps its
    place, a new one goes last. *)
Fixpoint assign (k : string) (v : JSON) (ps : list (string * JSON))
  : list (string * JSON) :=
  match ps with
  | [] => [(k, v)]
  | (k', v') :: rest =>
      if String.eqb k k' then (k, v) :: rest else (k', v') :: assign k v rest
  end.

Definition string_of_nat (n : nat) : string :=
  NilEmpty.string_of_uint (Nat.to_uint n).

Definition string_of_Z (n : Z) : string :=
  NilZero.string_of_int (Z.to_int n).

Fixpoint chars (s : string) : list string :=
  match s with
  | EmptyString => []
  | String c rest => String c EmptyString :: chars rest
  end.

Fixpoint number_from {A} (i : nat) (xs : list A) : list (string * A) :=
  match xs with
  | [] => []
  | x :: rest => (string_of_nat i, x) :: number_from (S i) rest
  end.

(** The own enumerable properties that an object spread [{ ...v }] copies
    into the fresh object. *)
Definition spread (v : JSON) : list (string * JSON) :=
  match v with
  | JObj ps => ps
  | JArr xs => number_from 0 xs
  | JStr s => number_from 0 (map JStr (chars s))
  | _ => []
  end.

Fixpoint join (sep : string) (parts : list string) : string :=
  match parts with
  | [] => ""
  | [p] => p
  | p :: rest => p +:+ sep +:+ join sep rest
  end.

(** [ToString], as string concatenation applies it.  An array prints its
    elements separated by commas, [null] and [undefined] elements as
    nothing.  A number prints its decimal digits (JavaScript turns to the
    exponent form from 10^21 on). *)
Fixpoint toString (v : JSON) : string :=
  match v with
  | JUndefined => "undefined"
  | JNull => "null"
  | JBool true => "true"
  | JBool false => "false"
  | JNum n => string_of_Z n
  | JStr s => s
  | JArr xs =>
      join "," (map (fun x => match x with
                              | JUndefined | JNull => ""
                              | _ => toString x
                              end) xs)
  | JObj _ => "[object Object]"
  end.

(** The values [v[0]], ..., [v[v.length - 1]] that a counting loop over
    [v.length] visits.  An array and a string have a length; so has a plain
    object that carries a numeric [length].  For every other value
    [i < v.length] is false from the start. *)
Definition elements (v : JSON) : list JSON :=
  match v with
  | JArr xs => xs
  | JStr s => map JStr (chars s)
  | JObj ps =>
      match assoc "length" ps with
      | Some (JNum n) =>
          map (fun i => member v (string_of_nat i)) (seq 0 (Z.to_nat n))
      | _ => []
      end
  | _ => []
  end.

(** [s.indexOf(search)]: the first position, or -1. *)
Definition indexOf (s search : string) : Z :=
  match String.index 0 search s with
  | Some n => Z.of_nat n
  | None => (-1)%Z
  end.

(** [s.substring(from, to)]: both ends are clamped to [0, s.length] and
    swapped when out of order; [to] left out means the end. *)
Definition substring (s : string) (from : Z) (to : option Z) : string :=
  let len := Z.of_nat (String.length s) in
  let clamp x := Z.max 0 (Z.min x len) in
  let a := clamp from in
  let b := match to with Some e => clamp e | None => len end in
  String.substring (Z.to_nat (Z.min a b)) (Z.to_nat (Z.max a b - Z.min a b)) s.

(** White space that [parseInt] skips, among the code units below 256. *)
Definition is_white_space (c : ascii) : bool :=
  let n := nat_of_ascii c in
  ((9 <=? n) && (n <=? 13) || (n =? 32) || (n =? 160))%nat.

Fixpoint trimStart (s : string) : string :=
  match s with
  | String c rest => if is_white_space c then trimStart rest else s
  | EmptyString => s
  end.

Definition digit_value (c : ascii) : option Z :=
  let n := nat_of_ascii c in
  if ((48 <=? n) && (n <=? 57))%nat then Some (Z.of_nat (n - 48))
  else if ((97 <=? n) && (n <=? 122))%nat then Some (Z.of_nat (n - 87))
  else if ((65 <=? n) && (n <=? 90))%nat then Some (Z.of_nat (n - 55))
  else None.

(** The longest prefix of [s] made of digits of [radix], read as a number;
    [acc] is [None] until a first digit is seen. *)
Fixpoint digits (radix : Z) (acc : option Z) (s : string) : option Z :=
  match s with
  | EmptyString => acc
  | String c rest =>
      match digit_value c with
      | Some d =>
          if (d <? radix)%Z
          then digits radix (Some (default 0%Z acc * radix + d)%Z) rest
          else acc
      | None => acc
      end
  end.

(** [parseInt(s)] with no radix: white space, a sign, a [0x] prefix that
    selects base 16, then digits.  [None] is [NaN].  The result is exact;
    JavaScript rounds above 2^53, which never changes the comparison with
    an array index. *)
Definition parseInt (s : string) : option Z :=
  let s1 := trimStart s in
  let '(sign, s2) :=
    match s1 with
    | String "-" rest => ((-1)%Z, rest)
    | String "+" rest => (1%Z, rest)
    | _ => (1%Z, s1)
    end in
  let '(radix, s3) :=
    match s2 with
    | String "0" (String "x" rest) => (16%Z, rest)
    | String "0" (String "X" rest) => (16%Z, rest)
    | _ => (10%Z, s2)
    end in
  option_map (Z.mul sign) (digits radix None s3).

(** [i === n] for a loop counter [i] and a parsed number [n]. *)
Definition same_index (i : nat) (n : option Z) : bool :=
  match n with
  | Some z => (Z.of_nat i =? z)%Z
  | None => false
  end.

End JS.
Import JS.


(* ================================================================== *)
(** * The data model                                                   *)
(* ================================================================== *)

(** [number | string]. *)
Inductive OneOfNumberString : Type :=
| OfNumber (n : Z)
| OfString (s : string).

(** The [FilterV2] interface; a property marked [?] is an [option]. *)
Module FilterV2.
Record t : Type := mk {
  const : option OneOfNumberString;
  enum : option (list OneOfNumberString);
  exclusiveMinimum : option OneOfNumberString;
  exclusiveMaximum : option OneOfNumberString;
  format : option string;
  formatMaximum : option string;
  formatMinimum : option string;
  formatExclusiveMaximum : option string;
  formatExclusiveMinimum : option string;
  minLength : option Z;
  maxLength : option Z;
  minimum : option OneOfNumberString;
  maximum : option OneOfNumberString;
  not : option JSON;
  pattern : option string;
  type : string
}.
End FilterV2.

(** The following types are declared in other files ([ConstraintUtils],
    the models package, [handlerCheckResult]); each is modelled with the
    members that the handler reads or writes and that the specification
    lists. *)

(** Modelled from the spec: the declaration of [Status] is missing;
    "status ∈ {info, warn, error}". *)
Inductive Status : Type := INFO | WARN | ERROR.

(** Modelled from the spec: the declaration of [Optionality] is missing;
    "predicate ∈ {required, preferred}". *)
Inductive Optionality : Type := Required | Preferred.

(** Modelled from the spec: the declaration of [Field] is missing; "Ordered
    list of JSONPath strings ..., an optional JSON-Schema filter, an
    optional predicate ∈ {required, preferred}, and an optional purpose". *)
Module Field.
Record t : Type := mk {
  path : list string;
  filter : option FilterV2.t;
  predicate : option Optionality;
  purpose : option string
}.
End Field.

(** Modelled from the spec: the declaration of [Constraints] is missing;
    "limit_disclosure ∈ {required, preferred, absent}, subject_is_issuer
    ∈ {required, preferred, absent}, is_holder list, same_subject list, and
    an ordered list of Fields".  The handler tests [constraints.fields]
    before it reads it: the list may be absent. *)
Module Constraints.
Record t : Type := mk {
  limit_disclosure : option Optionality;
  subject_is_issuer : option Optionality;
  is_holder : option (list JSON);
  same_subject : option (list JSON);
  fields : option (list Field.t)
}.
End Constraints.

(** Modelled from the spec: the declaration of [InputDescriptor] is missing;
    "id (unique within definition), optional group list, optional
    name/purpose, a Constraints block, and (v1) a schema list".  The
    handler tests [constraints] before it reads it: it may be absent. *)
Module InputDescriptor.
Record t : Type := mk {
  id : string;
  group : option (list string);
  name : option string;
  purpose : option string;
  constraints : option Constraints.t;
  schema : option (list JSON)
}.
End InputDescriptor.

(** Modelled from the spec: the declaration of [PresentationDefinition] is
    missing; "Identified by an opaque id.  Contains an ordered list of
    InputDescriptors, an optional list of SubmissionRequirements, an
    optional format map". *)
Module PresentationDefinition.
Record t : Type := mk {
  id : string;
  input_descriptors : list InputDescriptor.t;
  submission_requirements : option (list JSON);
  format : option JSON
}.
End PresentationDefinition.

(** Modelled from the spec: the declaration of [HandlerCheckResult] is
    missing; "{ input_descriptor_path, verifiable_credential_path,
    evaluator_name, status ∈ {info, warn, error}, message, payload }".  The
    members have the names of the object that the handler pushes
    ([evaluator] for the evaluator's name); [payload] is of type [any]. *)
Module HandlerCheckResult.
Record t : Type := mk {
  input_descriptor_path : string;
  verifiable_credential_path : string;
  evaluator : string;
  status : Status;
  message : option string;
  payload : JSON
}.
End HandlerCheckResult.
(* ================================================================== *)
(** * PredicateRelatedFieldEvaluationHandler                           *)
(* ================================================================== *)

Module PredicateRelatedFieldEvaluationHandler.

Definition getName : string := "PredicateRelatedField".

Definition retrieveResultInputDescriptorIdx (input_descriptor_path : string)
  : option Z :=
  let inputDescriptorText := "$.input_descriptors[" in
  let startIdx := indexOf input_descriptor_path inputDescriptorText in
  let startWithIdx :=
    substring input_descriptor_path
      (startIdx + Z.of_nat (String.length inputDescriptorText)) None in
  let endIdx := indexOf startWithIdx "]" in
  let idx := substring startWithIdx 0 (Some endIdx) in
  parseInt idx.

Definition concatenatePath (path : JSON) : string :=
  let completePath :=
    fold_left (fun completePath x => completePath +:+ (toString x +:+ "."))
      (elements path) "" in
  substring completePath 0 (Some (Z.of_nat (String.length completePath) - 1)%Z).

(** The object literal that both branches of
    [examinePredicateForFilterEvaluationResult] push; they differ in
    [evaluationResult] only. *)
Definition pushed (input_descriptor_idx : nat) (source : HandlerCheckResult.t)
  (evaluationResult : list (string * JSON)) : HandlerCheckResult.t :=
  {| HandlerCheckResult.input_descriptor_path :=
       "$.input_descriptors[" +:+ string_of_nat input_descriptor_idx +:+ "]";
     HandlerCheckResult.verifiable_credential_path :=
       HandlerCheckResult.verifiable_credential_path source;
     HandlerCheckResult.evaluator := getName;
     HandlerCheckResult.status := INFO;
     HandlerCheckResult.message :=
       Some "Input candidate valid for presentation submission";
     HandlerCheckResult.payload := JObj evaluationResult |}.

(** The first five conjuncts of the [if]: they read the log entry only. *)
Definition entry_qualifies (input_descriptor_idx : nat)
  (r : HandlerCheckResult.t) : bool :=
  truthy (HandlerCheckResult.payload r)
  && truthy (member (HandlerCheckResult.payload r) "result")
  && truthy (member (member (HandlerCheckResult.payload r) "result") "path")
  && String.eqb (HandlerCheckResult.evaluator r) "FilterEvaluation"
  && same_index input_descriptor_idx
       (retrieveResultInputDescriptorIdx
          (HandlerCheckResult.input_descriptor_path r)).

(** The last two conjuncts: they read the field, and the entry's path. *)
Definition field_qualifies (field : Field.t) (r : HandlerCheckResult.t) : bool :=
  match Field.predicate field with Some _ => true | None => false end
  && existsb
       (String.eqb
          (concatenatePath
             (member (member (HandlerCheckResult.payload r) "result") "path")))
       (Field.path field).

(** The content of [results] when the call returns.  [results[resultIdx]]
    and [constraints.fields[fieldIdx]] out of range are [undefined], whose
    property access throws; [&&] evaluates the field only after the entry
    qualified.  [evaluationResult] is a new object, made by an object
    spread: the assignment to its [value] changes no entry of the log, and
    the only write to [results] is the [push]. *)
Definition examinePredicateForFilterEvaluationResult
  (results : list HandlerCheckResult.t) (resultIdx : nat)
  (input_descriptor_idx : nat) (constraints : Constraints.t) (fieldIdx : nat)
  : Completion (list HandlerCheckResult.t) :=
  match results !! resultIdx with
  | None => Throw TypeError
  | Some r =>
      if entry_qualifies input_descriptor_idx r then
        match Constraints.fields constraints with
        | None => Throw TypeError
        | Some fields =>
            match fields !! fieldIdx with
            | None => Throw TypeError
            | Some field =>
                if field_qualifies field r then
                  let evaluationResult :=
                    spread (member (HandlerCheckResult.payload r) "result") in
                  match Field.predicate field with
                  | Some Required =>
                      Normal (results ++ [pushed input_descriptor_idx r evaluationResult])
                  | _ =>
                      let evaluationResult :=
                        assign "value" (JBool true) evaluationResult in
                      Normal (results ++ [pushed input_descriptor_idx r evaluationResult])
                  end
                else Normal results
            end
        end
      else Normal results
  end.

(** ** The scan of the log

    [for (let j = 0; j < results.length; j++)] reads [results.length] anew
    on every round while its body pushes to [results]: the loop also visits
    the entries it appended.  It ends because a pushed entry is never a
    ['FilterEvaluation'] entry: [pending] counts the entries still to visit
    plus those of them that may still push. *)

Definition is_filter_entry (r : HandlerCheckResult.t) : bool :=
  String.eqb (HandlerCheckResult.evaluator r) "FilterEvaluation".

Definition pending (j : nat) (results : list HandlerCheckResult.t) : nat :=
  length (drop j results) + length (List.filter is_filter_entry (drop j results)).

Lemma examine_shape results j idx c i results' :
  examinePredicateForFilterEvaluationResult results j idx c i = Normal results' ->
  results' = results \/
  exists r ev, results !! j = Some r /\ is_filter_entry r = true /\
               results' = results ++ [pushed idx r ev].
Proof.
  unfold examinePredicateForFilterEvaluationResult.
  destruct (results !! j) as [r|] eqn:Hr; [|discriminate].
  destruct (entry_qualifies idx r) eqn:Hq; [|intros [= <-]; now left].
  assert (Hfe : is_filter_entry r = true).
  { unfold entry_qualifies in Hq. unfold is_filter_entry.
    repeat (apply andb_prop in Hq; destruct Hq as [Hq ?]); assumption. }
  destruct (Constraints.fields c) as [fs|]; [|discriminate].
  destruct (fs !! i) as [f|]; [|discriminate].
  destruct (field_qualifies f r); [|intros [= <-]; now left].
  destruct (Field.predicate f) as [[|]|]; intros [= <-]; right; eauto.
Qed.

Lemma pending_step results j idx c i results' :
  j < length results ->
  examinePredicateForFilterEvaluationResult results j idx c i = Normal results' ->
  pending (S j) results' < pending j results.
Proof.
  intros Hj Hex. apply examine_shape in Hex.
  unfold pending.
  destruct (lookup_lt_is_Some_2 results j Hj) as [r0 Hr0].
  rewrite (drop_S results r0 j Hr0). simpl.
  destruct Hex as [-> | (r & ev & Hr & Hfe & ->)].
  - destruct (is_filter_entry r0); simpl; lia.
  - assert (r = r0) as -> by congruence.
    rewrite drop_app_le by lia. rewrite Hfe. simpl.
    rewrite List.filter_app, !length_app. simpl. lia.
Qed.

(** The inner loop of [examinePredicateRelatedField], from round [j] on. *)
Equations? scan (input_descriptor_idx : nat) (constraints : Constraints.t)
  (i : nat) (j : nat) (results : list HandlerCheckResult.t)
  : Completion (list HandlerCheckResult.t) by wf (pending j results) lt :=
  scan input_descriptor_idx constraints i j results
    with Logic.inspect (j <? length results) := {
    | exist _ false _ => Normal results
    | exist _ true Hlt
        with Logic.inspect (examinePredicateForFilterEvaluationResult
                              results j input_descriptor_idx constraints i) := {
        | exist _ (Throw e) _ => Throw e
        | exist _ (Normal results') Hstep =>
            scan input_descriptor_idx constraints i (S j) results' } }.
Proof.
  apply Nat.ltb_lt in Hlt. eapply pending_step; eauto.
Qed.

(** [for (let i = from; i < from + count; i++) s = body(i, s)], for a bound
    that the body does not change. *)
Fixpoint for_loop {St : Type} (count from : nat)
  (body : nat -> St -> Completion St) (s : St) : Completion St :=
  match count with
  | 0 => Normal s
  | S count' => bind (body from s) (for_loop count' (S from) body)
  end.

Definition examinePredicateRelatedField (input_descriptor_idx : nat)
  (constraints : Constraints.t) (results : list HandlerCheckResult.t)
  : Completion (list HandlerCheckResult.t) :=
  match Constraints.fields constraints with
  | None => Throw TypeError
  | Some fields =>
      for_loop (length fields) 0
        (fun i results => scan input_descriptor_idx constraints i 0 results)
        results
  end.

(** [handle(pd, _p, results)]: the final contents of [_p] and [results]. *)
Definition handle (pd : PresentationDefinition.t) (_p : JSON)
  (results : list HandlerCheckResult.t)
  : Completion (JSON * list HandlerCheckResult.t) :=
  let input_descriptors := PresentationDefinition.input_descriptors pd in
  bind
    (for_loop (length input_descriptors) 0
       (fun i results =>
          match input_descriptors !! i with
          | None => Throw TypeError
          | Some d =>
              match InputDescriptor.constraints d with
              | Some constraints =>
                  match Constraints.fields constraints with
                  | Some _ => examinePredicateRelatedField i constraints results
                  | None => Normal results
                  end
              | None => Normal results
              end
          end)
       results)
    (fun results => Normal (_p, results)).

(** ** What the handler appends, in closed form

    These definitions are not in the source: they say, without loops over a
    growing array, which entries a run appends.  [handle_closed_form] below
    proves that [handle] computes exactly this. *)

(** The whole condition of the [if]. *)
Definition matched (input_descriptor_idx : nat) (field : Field.t)
  (r : HandlerCheckResult.t) : bool :=
  entry_qualifies input_descriptor_idx r && field_qualifies field r.

(** The payload of the entry pushed for [field] and the log entry [r]. *)
Definition evaluationResult_of (field : Field.t) (r : HandlerCheckResult.t)
  : list (string * JSON) :=
  let copy := spread (member (HandlerCheckResult.payload r) "result") in
  match Field.predicate field with
  | Some Required => copy
  | _ => assign "value" (JBool true) copy
  end.

Definition results_for_entry (input_descriptor_idx : nat) (field : Field.t)
  (r : HandlerCheckResult.t) : list HandlerCheckResult.t :=
  if matched input_descriptor_idx field r
  then [pushed input_descriptor_idx r (evaluationResult_of field r)]
  else [].

Definition results_for_field (input_descriptor_idx : nat) (field : Field.t)
  (log : list HandlerCheckResult.t) : list HandlerCheckResult.t :=
  flat_map (results_for_entry input_descriptor_idx field) log.

Definition results_for_descriptor (input_descriptor_idx : nat)
  (d : InputDescriptor.t) (log : list HandlerCheckResult.t)
  : list HandlerCheckResult.t :=
  match InputDescriptor.constraints d with
  | Some constraints =>
      match Constraints.fields constraints with
      | Some fields =>
          flat_map (fun field => results_for_field input_descriptor_idx field log)
            fields
      | None => []
      end
  | None => []
  end.

Fixpoint results_for_descriptors (from : nat) (ds : list InputDescriptor.t)
  (log : list HandlerCheckResult.t) : list HandlerCheckResult.t :=
  match ds with
  | [] => []
  | d :: rest =>
      results_for_descriptor from d log ++ results_for_descriptors (S from) rest log
  end.

Definition appended (pd : PresentationDefinition.t)
  (log : list HandlerCheckResult.t) : list HandlerCheckResult.t :=
  results_for_descriptors 0 (PresentationDefinition.input_descriptors pd) log.

(** ** Vocabulary of the properties *)

(** The entry carries a result path: [payload], [payload.result] and
    [payload.result.path] are all truthy. *)
Definition carries_result_path (r : HandlerCheckResult.t) : bool :=
  truthy (HandlerCheckResult.payload r)
  && truthy (member (HandlerCheckResult.payload r) "result")
  && truthy (member (member (HandlerCheckResult.payload r) "result") "path").

(** The concrete path of the entry, as the handler compares it. *)
Definition result_path (r : HandlerCheckResult.t) : string :=
  concatenatePath (member (member (HandlerCheckResult.payload r) "result") "path").

(** The entry [r] with another extracted value in [payload.result.value]. *)
Definition with_result_value (v : JSON) (r : HandlerCheckResult.t)
  : HandlerCheckResult.t :=
  let payload := HandlerCheckResult.payload r in
  {| HandlerCheckResult.input_descriptor_path :=
       HandlerCheckResult.input_descriptor_path r;
     HandlerCheckResult.verifiable_credential_path :=
       HandlerCheckResult.verifiable_credential_path r;
     HandlerCheckResult.evaluator := HandlerCheckResult.evaluator r;
     HandlerCheckResult.status := HandlerCheckResult.status r;
     HandlerCheckResult.message := HandlerCheckResult.message r;
     HandlerCheckResult.payload :=
       JObj (assign "result"
               (JObj (assign "value" v (spread (member payload "result"))))
               (spread payload)) |}.

(** What the [if] asks of a ['FilterEvaluation'] entry that carries a
    result path: its descriptor index is the one under examination, the
    field has a predicate, and the field lists the entry's concrete path. *)
Definition predicate_applies (input_descriptor_idx : nat) (field : Field.t)
  (r : HandlerCheckResult.t) : Prop :=
  same_index input_descriptor_idx
    (retrieveResultInputDescriptorIdx (HandlerCheckResult.input_descriptor_path r))
  = true
  /\ Field.predicate field <> None
  /\ In (result_path r) (Field.path field).

End PredicateRelatedFieldEvaluationHandler.

(** ** Two runs of the handler, used as examples below *)

Module Scenario.

Definition number_filter (minimum : Z) : FilterV2.t :=
  FilterV2.mk None None None None None None None None None None None
    (Some (OfNumber minimum)) None None None "number".

Definition field (path : string) (filter : option FilterV2.t)
  (predicate : option Optionality) : Field.t :=
  Field.mk [path] filter predicate None.

Definition constraints (fields : list Field.t) : Constraints.t :=
  Constraints.mk (Some Required) None None None (Some fields).

Definition descriptor (fields : list Field.t) : InputDescriptor.t :=
  InputDescriptor.mk "descriptor" None None None (Some (constraints fields)) None.

Definition definition (fields : list Field.t) : PresentationDefinition.t :=
  PresentationDefinition.mk "definition" [descriptor fields] None None.

Definition age_field (predicate : Optionality) : Field.t :=
  field "$.credentialSubject.age" (Some (number_filter 18)) (Some predicate).

(** The payload that the filter evaluation logs for the age 25. *)
Definition age_payload : JSON :=
  JObj [("result",
         JObj [("path", JArr [JStr "$"; JStr "credentialSubject"; JStr "age"]);
               ("value", JNum 25)]);
        ("valid", JBool true)].

Definition age_entry : HandlerCheckResult.t :=
  HandlerCheckResult.mk "$.input_descriptors[0]" "$.verifiableCredential[0]"
    "FilterEvaluation" INFO
    (Some "Input candidate valid for presentation submission") age_payload.

Definition predicate_entry (value : JSON) : HandlerCheckResult.t :=
  HandlerCheckResult.mk "$.input_descriptors[0]" "$.verifiableCredential[0]"
    "PredicateRelatedField" INFO
    (Some "Input candidate valid for presentation submission")
    (JObj [("path", JArr [JStr "$"; JStr "credentialSubject"; JStr "age"]);
           ("value", value)]).

End Scenario.

(* ================================================================== *)
(** * Limit disclosure                                                 *)
(* ================================================================== *)

(** The limit-disclosure handler is described in section 4.5 of the
    specification and exercised by [limitDisclosureEvaluationHandler.spec.ts];
    the definitions of this module follow the words of the specification. *)

Module LimitDisclosure.

(** A concrete path: the components after the root [$], each a property
    name or an array index. *)
Abbreviation Path := (list JSON) (only parsing).

(** What a result of the log discloses: the claim at a path, or, for a
    result of ['PredicateRelatedField'], the value that stands for the
    claim at that path. *)
Abbreviation Disclosure := (list JSON * option JSON)%type (only parsing).



Definition component_eqb (a b : JSON) : bool :=
  match a, b with
  | JStr s, JStr t => String.eqb s t
  | JNum n, JNum m => (n =? m)%Z
  | _, _ => false
  end.

(** The disclosures whose path starts with the component [c], without that
    component. *)
Definition under (c : JSON) (disclosed : list Disclosure) : list Disclosure :=
  flat_map (fun pd => match pd.1 with
                      | c' :: rest =>
                          if component_eqb c c' then [(rest, pd.2)] else []
                      | [] => []
                      end) disclosed.

(** The disclosures whose path ends here, in the order of the log. *)
Definition ends_here (disclosed : list Disclosure) : list (option JSON) :=
  flat_map (fun pd => match pd.1 with
                      | [] => [pd.2]
                      | _ :: _ => []
                      end) disclosed.













(** ** Vocabulary of the property *)



(** The disclosures for the path [p]: those left after descending along
    [p] that end there, in the order of the log. *)
Definition descend (p : Path) (disclosed : list Disclosure) : list Disclosure :=
  fold_left (fun rest c => under c rest) p disclosed.

Definition disclosed_at (disclosed : list Disclosure) (p : Path)
  : list (option JSON) :=
  ends_here (descend p disclosed).





End LimitDisclosure.

(** The first scenario of the specification: the age of the subject is asked
    for, the subject also has a claim [etc]. *)
Module LimitDisclosureScenario.

Definition credential : JSON :=
  JObj [("@context", JArr [JStr "https://www.w3.org/2018/credentials/v1"]);
        ("type", JArr [JStr "VerifiableCredential"]);
        ("issuer", JStr "did:example:issuer");
        ("birthPlace", JStr "Maarssen");
        ("credentialSubject",
         JObj [("id", JStr "did:example:ebfeb1f712ebc6f1c276e12ec21");
               ("age", JNum 25);
               ("etc", JStr "hidden")]);
        ("proof", JObj [("type", JStr "BbsBlsSignature2020")])].

Definition log : list HandlerCheckResult.t :=
  [Scenario.age_entry; Scenario.predicate_entry (JBool true)].

End LimitDisclosureScenario.

(* ================================================================== *)
(** * PEX                                                              *)
(* ================================================================== *)

(** The class [PEX] is a facade over collaborators whose sources are other
    files of the library: [SSITypesBuilder], [EvaluationClientWrapper],
    [definitionVersionDiscovery] and [ValidationEngine].  They are the
    fields of [Collaborators]; the methods of [PEX] are modelled on top of
    any implementation of them.

    The credential lists and the presentations that a caller hands over
    live in a [Heap], where a callee can change them in place; such a
    parameter is a reference [Ref] into the heap.  A cell holds a whole
    tree: the array of credentials with the credentials in it, a
    presentation with all it contains.  Presentation definitions and [opts]
    are passed as values.  A collaborator is a function: it returns, and
    what it returns depends on its arguments, its wrapper's state and the
    heap only.  The exceptions that the collaborators of
    [evaluatePresentation] and [selectFrom] can throw are the subject of
    [PEXExceptions]. *)

Module PEX.

Abbreviation Ref := nat (only parsing).
Abbreviation Heap := (list JSON) (only parsing).

(** The types of this section are declared in other files (the models
    package, [evaluation], [signing], [types], [validation]); each is
    modelled with the members that [PEX] reads or writes. *)

(** Modelled from the spec: the declaration of a descriptor of the
    [descriptor_map] is missing; "for each satisfied descriptor, {id,
    format, path ...}". *)
Module Descriptor.
Record t : Type := mk {
  id : string;
  format : string;
  path : string
}.
End Descriptor.

(** Modelled from the spec: the declaration of [PresentationSubmission] is
    missing; "id", "definition_id", "descriptor_map". *)
Module PresentationSubmission.
Record t : Type := mk {
  id : string;
  definition_id : string;
  descriptor_map : list Descriptor.t
}.
End PresentationSubmission.

(** Modelled from the spec: the declaration of [EvaluationResults] is
    missing; "{ value: PresentationSubmission|null, warnings, errors,
    verifiableCredential ..., areRequiredCredentialsPresent }".  What a
    warning or an error is made of is left open: it is a value. *)
Module EvaluationResults.
Record t : Type := mk {
  value : option PresentationSubmission.t;
  warnings : option (list JSON);
  errors : option (list JSON);
  verifiableCredential : list JSON;
  areRequiredCredentialsPresent : option Status
}.

(** [result.errors = errors]. *)
Definition set_errors (errors : option (list JSON)) (result : t) : t :=
  mk (value result) (warnings result) errors (verifiableCredential result)
    (areRequiredCredentialsPresent result).

(** [result.areRequiredCredentialsPresent = status]. *)
Definition set_areRequiredCredentialsPresent (status : Status) (result : t) : t :=
  mk (value result) (warnings result) (errors result)
    (verifiableCredential result) (Some status).
End EvaluationResults.

(** Modelled from the spec: the declaration of [SelectResults] is missing;
    the specification names the type only.  These are the two members that
    [PEX] reads. *)
Module SelectResults.
Record t : Type := mk {
  errors : option (list JSON);
  areRequiredCredentialsPresent : Status
}.
End SelectResults.

(** The [opts] of the evaluating methods, and what [evaluatePresentation]
    hands on as [updatedOpts]. *)
Module Opts.
Record t : Type := mk {
  holderDIDs : option (list string);
  limitDisclosureSignatureSuites : option (list string);
  restrictToFormats : option JSON;
  restrictToDIDMethods : option (list string);
  presentationSubmission : option PresentationSubmission.t;
  generatePresentationSubmission : option bool
}.
End Opts.

(** Modelled from the spec: the declaration of [IPresentation] is missing;
    "carries @context ...; type ...", "holder", "presentation_submission".
    ['@context'] and [type] are kept as the caller wrote them: absent, one
    entry, or an array; [additional] holds every other property. *)
Module IPresentation.
Record t : Type := mk {
  context : JSON;
  type : JSON;
  holder : option string;
  presentation_submission : option PresentationSubmission.t;
  verifiableCredential : option (list JSON);
  additional : list (string * JSON)
}.
End IPresentation.

(** Of a wrapped presentation, the two members that [PEX] reads. *)
Module WrappedVerifiablePresentation.
Record t : Type := mk {
  presentation : IPresentation.t;
  vcs : Ref
}.
End WrappedVerifiablePresentation.

(** Modelled from the spec: the declaration of
    [PresentationSubmissionLocation] is missing; "PRESENTATION or EXTERNAL
    (DIDComm attachment)". *)
Inductive PresentationSubmissionLocation : Type := EXTERNAL | PRESENTATION.

(** Of the [opts] of [presentationFrom], the members that [PEX] reads or
    hands on to [constructPresentation]. *)
Module PresentationFromOpts.
Record t : Type := mk {
  holderDID : option string;
  presentationSubmissionLocation : option PresentationSubmissionLocation;
  basePresentationPayload : option IPresentation.t
}.
End PresentationFromOpts.

(** The [opts] of [constructPresentation]. *)
Module ConstructOpts.
Record t : Type := mk {
  presentationSubmission : option PresentationSubmission.t;
  holderDID : option string;
  basePresentationPayload : option IPresentation.t
}.
End ConstructOpts.

Module PresentationResult.
Record t : Type := mk {
  presentation : IPresentation.t;
  presentationSubmissionLocation : PresentationSubmissionLocation;
  presentationSubmission : PresentationSubmission.t
}.
End PresentationResult.

(** The versions that [validateDefinition] tells apart. *)
Inductive PEVersion : Type := v1 | v2.

(** Of the result of version discovery, the two members that
    [validateDefinition] reads. *)
Module DiscoveredVersion.
Record t : Type := mk {
  version : option PEVersion;
  error : option string
}.
End DiscoveredVersion.

(** The validator bundles that [PEX] instantiates, each with its tag. *)
Inductive Bundler : Type :=
| PresentationDefinitionV1VB (tag : string)
| PresentationDefinitionV2VB (tag : string)
| PresentationSubmissionVB (tag : string).

(** What a bundle is run on. *)
Inductive Target (Internal : Type) : Type :=
| DefinitionTarget (pd : Internal)
| SubmissionTarget (ps : PresentationSubmission.t).
Arguments DefinitionTarget {Internal} pd.
Arguments SubmissionTarget {Internal} ps.

(** The collaborators.  [IInternalPresentationDefinition] and [Validated]
    are their types; [Wrapper] is the state of an
    [EvaluationClientWrapper], [newWrapper] what its constructor builds.  A
    method of the wrapper returns its result, the wrapper's next state and
    the heap it leaves. *)
Class Collaborators : Type := {
  IInternalPresentationDefinition : Type;
  Validated : Type;
  Wrapper : Type;
  newWrapper : Wrapper;
  toInternalPresentationDefinition : JSON -> IInternalPresentationDefinition;
  modelEntityToInternalPresentationDefinitionV1 :
    JSON -> IInternalPresentationDefinition;
  modelEntityInternalPresentationDefinitionV2 :
    JSON -> IInternalPresentationDefinition;
  mapExternalVerifiableCredentialsToWrappedVcs : Ref -> Heap -> Ref * Heap;
  mapExternalVerifiablePresentationToWrappedVP :
    Ref -> Heap -> WrappedVerifiablePresentation.t * Heap;
  wrapper_evaluate :
    Wrapper -> IInternalPresentationDefinition -> Ref -> option Opts.t -> Heap ->
    EvaluationResults.t * Wrapper * Heap;
  wrapper_selectFrom :
    Wrapper -> IInternalPresentationDefinition -> Ref -> option Opts.t -> Heap ->
    SelectResults.t * Wrapper * Heap;
  wrapper_submissionFrom :
    Wrapper -> IInternalPresentationDefinition -> Ref -> Heap ->
    PresentationSubmission.t * Wrapper * Heap;
  definitionVersionDiscovery : JSON -> DiscoveredVersion.t;
  validate :
    list (Bundler * Target IInternalPresentationDefinition) -> Validated
}.

(** ** The types of [verifiablePresentationFrom] *)

(** Of [opts.proofOptions], the members that [verifiablePresentationFrom]
    reads. *)
Module ProofOptions.
Record t : Type := mk {
  type : option string;
  typeSupportsSelectiveDisclosure : option bool;
  created : option string;
  proofPurpose : option string;
  challenge : option string;
  nonce : option string;
  domain : option string
}.
End ProofOptions.

(** Of [opts.signatureOptions], the members that
    [verifiablePresentationFrom] reads. *)
Module SignatureOptions.
Record t : Type := mk {
  verificationMethod : option string;
  proofValue : option string;
  jws : option string
}.
End SignatureOptions.

(** Of the [opts] of [verifiablePresentationFrom], the members that it
    reads itself and those that [presentationFrom] reads from the copy
    [{ ...opts, presentationSubmissionLocation }]. *)
Module VerifiablePresentationFromOpts.
Record t : Type := mk {
  holderDID : option string;
  presentationSubmissionLocation : option PresentationSubmissionLocation;
  basePresentationPayload : option IPresentation.t;
  signatureOptions : option SignatureOptions.t;
  proofOptions : option ProofOptions.t
}.
End VerifiablePresentationFromOpts.

(** The [Partial<IProof>] that [verifiablePresentationFrom] builds. *)
Module IProof.
Record t : Type := mk {
  type : option string;
  verificationMethod : option string;
  created : string;
  proofPurpose : option string;
  proofValue : option string;
  jws : option string;
  challenge : option string;
  nonce : option string;
  domain : option string
}.
End IProof.

(** What the signing callback is called with. *)
Module PresentationSignCallBackParams.
Record t : Type := mk {
  options : VerifiablePresentationFromOpts.t;
  presentation : IPresentation.t;
  presentationDefinition : JSON;
  selectedCredentials : Ref;
  proof : IProof.t;
  presentationSubmission : PresentationSubmission.t;
  evaluationResults : EvaluationResults.t
}.
End PresentationSignCallBackParams.

Module VerifiablePresentationResult.
Record t : Type := mk {
  verifiablePresentation : JSON;
  presentationSubmissionLocation : PresentationSubmissionLocation;
  presentationSubmission : PresentationSubmission.t
}.
End VerifiablePresentationResult.

(** ** A presentation as an object

    [constructPresentation] returns an object; [IPresentation.t] names its
    members.  [object_of] is that object, as [evaluatePresentation] is
    handed it: the named members, then every other property. *)

Definition descriptor_object (d : Descriptor.t) : JSON :=
  JObj [("id", JStr (Descriptor.id d));
        ("format", JStr (Descriptor.format d));
        ("path", JStr (Descriptor.path d))].

Definition submission_object (submission : PresentationSubmission.t) : JSON :=
  JObj [("id", JStr (PresentationSubmission.id submission));
        ("definition_id", JStr (PresentationSubmission.definition_id submission));
        ("descriptor_map",
         JArr (map descriptor_object
                 (PresentationSubmission.descriptor_map submission)))].

(** The names of the members that [IPresentation.t] keeps apart. *)
Definition is_named_member (k : string) : bool :=
  String.eqb k "@context" || String.eqb k "type" || String.eqb k "holder"
  || String.eqb k "presentation_submission"
  || String.eqb k "verifiableCredential".

Definition object_of (p : IPresentation.t) : JSON :=
  JObj ([("@context", IPresentation.context p);
         ("type", IPresentation.type p);
         ("holder",
          match IPresentation.holder p with
          | Some holder => JStr holder
          | None => JUndefined
          end)]
        ++ match IPresentation.presentation_submission p with
           | Some submission =>
               [("presentation_submission", submission_object submission)]
           | None => []
           end
        ++ match IPresentation.verifiableCredential p with
           | Some credentials => [("verifiableCredential", JArr credentials)]
           | None => []
           end
        ++ List.filter (fun kv => negb (is_named_member kv.1))
             (IPresentation.additional p)).

(** ** [JSON.parse(JSON.stringify(v))] *)

(** What comes back when [v] has a JSON text: a property whose value is
    [undefined] is left out, an [undefined] array element reads [null]. *)
Fixpoint reparse (v : JSON) : JSON :=
  match v with
  | JArr xs =>
      JArr (map (fun x => match x with
                          | JUndefined => JNull
                          | _ => reparse x
                          end) xs)
  | JObj ps =>
      JObj (flat_map (fun kx => let '(k, x) := kx in
                                match x with
                                | JUndefined => []
                                | _ => [(k, reparse x)]
                                end) ps)
  | _ => v
  end.

(** [JSON.stringify(undefined)] is [undefined], which [JSON.parse] refuses. *)
Definition parse_stringify (v : JSON) : Completion JSON :=
  match v with
  | JUndefined => Throw SyntaxError
  | _ => Normal (reparse v)
  end.

(** ** The state of a call and its monad *)

Section Methods.
Context `{Collaborators}.

(** What a method of a [PEX] object can read and write: the object's own
    [_evaluationClientWrapper] and the heap. *)
Record State : Type := mkState {
  _evaluationClientWrapper : Wrapper;
  heap : Heap
}.

(** A method call: from a state to how it ends and the state it leaves. *)
Definition M (A : Type) : Type := State -> Completion A * State.

Definition ret {A} (a : A) : M A := fun st => (Normal a, st).

Definition throw {A} (e : Exception) : M A := fun st => (Throw e, st).

Definition mbind {A B} (c : M A) (k : A -> M B) : M B :=
  fun st =>
    match c st with
    | (Normal a, st') => k a st'
    | (Throw e, st') => (Throw e, st')
    end.

Notation "'let!' x ':=' c 'in' k" := (mbind c (fun x => k))
  (at level 10, x name, c at level 100, k at level 200).
Notation "'run' c 'in' k" := (mbind c (fun _ => k))
  (at level 10, c at level 100, k at level 200).

(** A call of a static collaborator that works on the heap. *)
Definition call {A} (f : Heap -> A * Heap) : M A :=
  fun st =>
    let '(a, h) := f (heap st) in
    (Normal a, mkState (_evaluationClientWrapper st) h).

(** [this._evaluationClientWrapper.method(...)]. *)
Definition call_this {A} (method : Wrapper -> Heap -> A * Wrapper * Heap) : M A :=
  fun st =>
    let '(a, w, h) := method (_evaluationClientWrapper st) (heap st) in
    (Normal a, mkState w h).

(** [wrapper.method(...)] on a wrapper held in a local constant that is not
    read again. *)
Definition call_on {A} (wrapper : Wrapper)
  (method : Wrapper -> Heap -> A * Wrapper * Heap) : M A :=
  fun st =>
    let '(a, _, h) := method wrapper (heap st) in
    (Normal a, mkState (_evaluationClientWrapper st) h).

(** [this._evaluationClientWrapper = wrapper]. *)
Definition set_evaluationClientWrapper (wrapper : Wrapper) : M unit :=
  fun st => (Normal tt, mkState wrapper (heap st)).

(** [JSON.parse(JSON.stringify(x))] for the object [x] at [r]: the copy is a
    new cell. *)
Definition deep_copy (r : Ref) : M Ref :=
  fun st =>
    match parse_stringify (default JUndefined (heap st !! r)) with
    | Normal v =>
        (Normal (length (heap st)),
         mkState (_evaluationClientWrapper st) (heap st ++ [v]))
    | Throw e => (Throw e, st)
    end.

(** The content of the object at [r]. *)
Definition read (r : Ref) : M JSON :=
  fun st => (Normal (default JUndefined (heap st !! r)), st).

(** ** The methods *)

Definition is_some {A} (o : option A) : bool :=
  match o with Some _ => true | None => false end.

Definition Status_eqb (a b : Status) : bool :=
  match a, b with
  | INFO, INFO | WARN, WARN | ERROR, ERROR => true
  | _, _ => false
  end.

(** [result.value && result.value.descriptor_map.length]. *)
Definition has_descriptors (result : EvaluationResults.t) : bool :=
  match EvaluationResults.value result with
  | Some value =>
      negb (length (PresentationSubmission.descriptor_map value) =? 0)
  | None => false
  end.

(** [opts?.generatePresentationSubmission !== undefined
     ? opts.generatePresentationSubmission
     : opts?.presentationSubmission !== undefined]. *)
Definition resolve_generatePresentationSubmission (opts : option Opts.t) : bool :=
  match opts ≫= Opts.generatePresentationSubmission with
  | Some generate => generate
  | None => is_some (opts ≫= Opts.presentationSubmission)
  end.

Definition evaluatePresentation (presentationDefinition : JSON)
  (presentation : Ref) (opts : option Opts.t) : M EvaluationResults.t :=
  let generatePresentationSubmission :=
    resolve_generatePresentationSubmission opts in
  let pd := toInternalPresentationDefinition presentationDefinition in
  let! presentationCopy := deep_copy presentation in
  let! wrappedPresentation :=
    call (mapExternalVerifiablePresentationToWrappedVP presentationCopy) in
  let presentationSubmission :=
    match opts ≫= Opts.presentationSubmission with
    | Some submission => Some submission
    | None =>
        IPresentation.presentation_submission
          (WrappedVerifiablePresentation.presentation wrappedPresentation)
    end in
  if negb (is_some presentationSubmission) && negb generatePresentationSubmission
  then
    throw (ErrorObject
      "Either a presentation submission as part of the VP or provided separately was expected")
  else
    let holderDIDs :=
      match IPresentation.holder
              (WrappedVerifiablePresentation.presentation wrappedPresentation) with
      | Some holder => if String.eqb holder "" then [] else [holder]
      | None => []
      end in
    let updatedOpts :=
      {| Opts.holderDIDs := Some holderDIDs;
         Opts.limitDisclosureSignatureSuites :=
           opts ≫= Opts.limitDisclosureSignatureSuites;
         Opts.restrictToFormats := opts ≫= Opts.restrictToFormats;
         Opts.restrictToDIDMethods := opts ≫= Opts.restrictToDIDMethods;
         Opts.presentationSubmission := presentationSubmission;
         Opts.generatePresentationSubmission :=
           Some generatePresentationSubmission |} in
    let vcs := WrappedVerifiablePresentation.vcs wrappedPresentation in
    let! result :=
      call_this (fun w => wrapper_evaluate w pd vcs (Some updatedOpts)) in
    if has_descriptors result then
      let selectFromClientWrapper := newWrapper in
      let! selectResults :=
        call_on selectFromClientWrapper
          (fun w => wrapper_selectFrom w pd vcs (Some updatedOpts)) in
      if negb (Status_eqb
                 (SelectResults.areRequiredCredentialsPresent selectResults) ERROR)
      then ret (EvaluationResults.set_errors (Some []) result)
      else ret result
    else ret result.

Definition evaluateCredentials (presentationDefinition : JSON)
  (verifiableCredentials : Ref) (opts : option Opts.t) : M EvaluationResults.t :=
  let! wrappedVerifiableCredentials :=
    call (mapExternalVerifiableCredentialsToWrappedVcs verifiableCredentials) in
  run set_evaluationClientWrapper newWrapper in
  let pd := toInternalPresentationDefinition presentationDefinition in
  let! result :=
    call_this (fun w => wrapper_evaluate w pd wrappedVerifiableCredentials opts) in
  if has_descriptors result then
    let selectFromClientWrapper := newWrapper in
    let! selectResults :=
      call_on selectFromClientWrapper
        (fun w => wrapper_selectFrom w pd wrappedVerifiableCredentials opts) in
    ret (EvaluationResults.set_errors (SelectResults.errors selectResults)
           (EvaluationResults.set_areRequiredCredentialsPresent
              (SelectResults.areRequiredCredentialsPresent selectResults) result))
  else
    ret (EvaluationResults.set_areRequiredCredentialsPresent ERROR result).

Definition selectFrom (presentationDefinition : JSON)
  (verifiableCredentials : Ref) (opts : option Opts.t) : M SelectResults.t :=
  let! verifiableCredentialCopy := deep_copy verifiableCredentials in
  let pd := toInternalPresentationDefinition presentationDefinition in
  run set_evaluationClientWrapper newWrapper in
  let! wrapped :=
    call (mapExternalVerifiableCredentialsToWrappedVcs verifiableCredentialCopy) in
  call_this (fun w => wrapper_selectFrom w pd wrapped opts).

Definition presentationSubmissionFrom (presentationDefinition : JSON)
  (selectedCredentials : Ref) : M PresentationSubmission.t :=
  let pd := toInternalPresentationDefinition presentationDefinition in
  let! wrapped :=
    call (mapExternalVerifiableCredentialsToWrappedVcs selectedCredentials) in
  call_this (fun w => wrapper_submissionFrom w pd wrapped).

(** [Array.isArray(v)]. *)
Definition isArray (v : JSON) : bool :=
  match v with JArr _ => true | _ => false end.

(** [array.includes(s)] for a string [s]: an entry equal to a string is that
    string. *)
Definition includes (array : list JSON) (s : string) : bool :=
  existsb (fun x => match x with JStr t => String.eqb t s | _ => false end) array.

(** [if (!array.includes(s)) array.push(s)]. *)
Definition push_unless_included (s : string) (array : list JSON) : list JSON :=
  if includes array s then array else array ++ [JStr s].

(** The array that [constructPresentation] starts [type] from. *)
Definition initial_type (base : option IPresentation.t) : list JSON :=
  let type := default JUndefined (IPresentation.type <$> base) in
  match type with
  | JArr entries => entries
  | _ => if truthy type then [type] else []
  end.

(** The array that [constructPresentation] starts [context] from. *)
Definition initial_context (base : option IPresentation.t) : list JSON :=
  let context := default JUndefined (IPresentation.context <$> base) in
  if truthy context then
    match context with
    | JArr entries => entries
    | _ => [context]
    end
  else [].

(** The static [constructPresentation]: the presentation it returns.  (It
    pushes onto the arrays of [basePresentationPayload] themselves; only
    the returned content is modelled.) *)
Definition constructPresentation (selectedCredentials : JSON)
  (opts : option ConstructOpts.t) : IPresentation.t :=
  let base := opts ≫= ConstructOpts.basePresentationPayload in
  let holder := opts ≫= ConstructOpts.holderDID in
  let type := initial_type base in
  let context := initial_context base in
  let context :=
    push_unless_included "https://www.w3.org/2018/credentials/v1" context in
  let type := push_unless_included "VerifiablePresentation" type in
  let '(type, context) :=
    match opts ≫= ConstructOpts.presentationSubmission with
    | Some _ =>
        (push_unless_included "PresentationSubmission" type,
         push_unless_included
           "https://identity.foundation/presentation-exchange/submission/v1"
           context)
    | None => (type, context)
    end in
  {| IPresentation.context := JArr context;
     IPresentation.type := JArr type;
     IPresentation.holder := holder;
     IPresentation.presentation_submission :=
       match opts ≫= ConstructOpts.presentationSubmission with
       | Some submission => Some submission
       | None => base ≫= IPresentation.presentation_submission
       end;
     IPresentation.verifiableCredential :=
       Some (match selectedCredentials with
             | JArr credentials => credentials
             | _ => [selectedCredentials]
             end);
     IPresentation.additional :=
       default [] (IPresentation.additional <$> base) |}.

Definition presentationFrom (presentationDefinition : JSON)
  (selectedCredentials : Ref) (opts : option PresentationFromOpts.t)
  : M PresentationResult.t :=
  let presentationSubmissionLocation :=
    default PRESENTATION (opts ≫= PresentationFromOpts.presentationSubmissionLocation) in
  let! presentationSubmission :=
    presentationSubmissionFrom presentationDefinition selectedCredentials in
  let! credentials := read selectedCredentials in
  let presentation :=
    constructPresentation credentials
      (Some {| ConstructOpts.presentationSubmission :=
                 match presentationSubmissionLocation with
                 | PRESENTATION => Some presentationSubmission
                 | EXTERNAL => None
                 end;
               ConstructOpts.holderDID := opts ≫= PresentationFromOpts.holderDID;
               ConstructOpts.basePresentationPayload :=
                 opts ≫= PresentationFromOpts.basePresentationPayload |}) in
  ret {| PresentationResult.presentation := presentation;
         PresentationResult.presentationSubmissionLocation :=
           presentationSubmissionLocation;
         PresentationResult.presentationSubmission := presentationSubmission |}.

(** The validator that [validateDefinition] pushes for a discovered version:
    [result.version === PEVersion.v1 ? ... : ...]. *)
Definition definition_validator (result : DiscoveredVersion.t)
  (presentationDefinition : JSON)
  : Bundler * Target IInternalPresentationDefinition :=
  match DiscoveredVersion.version result with
  | Some v1 =>
      (PresentationDefinitionV1VB "root",
       DefinitionTarget
         (modelEntityToInternalPresentationDefinitionV1 presentationDefinition))
  | _ =>
      (PresentationDefinitionV2VB "root",
       DefinitionTarget
         (modelEntityInternalPresentationDefinitionV2 presentationDefinition))
  end.

(** [result.error], as the condition of an [if]. *)
Definition reports_error (result : DiscoveredVersion.t) : option string :=
  match DiscoveredVersion.error result with
  | Some error => if String.eqb error "" then None else Some error
  | None => None
  end.

(** The static [validateDefinition].  [throw result.error] throws the error
    string itself. *)
Definition validateDefinition (presentationDefinition : JSON)
  : Completion Validated :=
  let result := definitionVersionDiscovery presentationDefinition in
  match reports_error result with
  | Some error => Throw (ThrownValue (JStr error))
  | None => Normal (validate [definition_validator result presentationDefinition])
  end.

Definition validateSubmission (presentationSubmission : PresentationSubmission.t)
  : Validated :=
  validate [(PresentationSubmissionVB "root", SubmissionTarget presentationSubmission)].

(** ** The constructor and the static version discovery *)

(** [new PEX()]: the new object holds a new wrapper. *)
Definition new_PEX (h : Heap) : State := mkState newWrapper h.

(** The static [PEX.definitionVersionDiscovery] hands on to the function
    of [utils]. *)
Definition static_definitionVersionDiscovery (presentationDefinition : JSON)
  : DiscoveredVersion.t :=
  definitionVersionDiscovery presentationDefinition.

(** ** [verifiablePresentationFrom] *)

(** A new object with the content [v]. *)
Definition alloc (v : JSON) : M Ref :=
  fun st =>
    (Normal (length (heap st)),
     mkState (_evaluationClientWrapper st) (heap st ++ [v])).

(** A computation that reads and writes no state. *)
Definition lift {A} (c : Completion A) : M A := fun st => (c, st).

(** [s ? [s] : []] for an optional string: the empty string is falsy. *)
Definition singleton_if_truthy (s : option string) : list string :=
  match s with
  | Some s => if String.eqb s "" then [] else [s]
  | None => []
  end.

(** The inner function [limitedDisclosureSuites] of
    [verifiablePresentationFrom]; it closes over [proofOptions]. *)
Definition limitedDisclosureSuites (proofOptions : option ProofOptions.t)
  : Completion (list string) :=
  match proofOptions ≫= ProofOptions.typeSupportsSelectiveDisclosure with
  | Some true =>
      match proofOptions ≫= ProofOptions.type with
      | Some type =>
          if String.eqb type ""
          then Throw (ErrorObject
                 "Please provide a proof type if you enable selective disclosure")
          else Normal [type]
      | None =>
          Throw (ErrorObject
            "Please provide a proof type if you enable selective disclosure")
      end
  | _ => Normal []
  end.

(** [verifiablePresentationFrom], with [await] read as a call that returns
    or throws.  [now] is what [new Date().toISOString()] answers.  The
    callback is the caller's code: it may do whatever a method can.
    [evaluationResult.verifiableCredential] and the presentation that
    [presentationFrom] built are objects: each is a new object on the
    heap, handed on by reference. *)
Definition verifiablePresentationFrom (now : string)
  (presentationDefinition : JSON) (selectedCredentials : Ref)
  (signingCallBack : PresentationSignCallBackParams.t -> M JSON)
  (opts : VerifiablePresentationFromOpts.t)
  : M VerifiablePresentationResult.t :=
  let holderDID := VerifiablePresentationFromOpts.holderDID opts in
  let signatureOptions := VerifiablePresentationFromOpts.signatureOptions opts in
  let proofOptions := VerifiablePresentationFromOpts.proofOptions opts in
  let presentationSubmissionLocation :=
    default PRESENTATION
      (VerifiablePresentationFromOpts.presentationSubmissionLocation opts) in
  let holderDIDs := singleton_if_truthy holderDID in
  let! limitDisclosureSignatureSuites :=
    lift (limitedDisclosureSuites proofOptions) in
  let! evaluationResult :=
    evaluateCredentials presentationDefinition selectedCredentials
      (Some {| Opts.holderDIDs := Some holderDIDs;
               Opts.limitDisclosureSignatureSuites :=
                 Some limitDisclosureSignatureSuites;
               Opts.restrictToFormats := None;
               Opts.restrictToDIDMethods := None;
               Opts.presentationSubmission := None;
               Opts.generatePresentationSubmission := None |}) in
  let! evaluated :=
    alloc (JArr (EvaluationResults.verifiableCredential evaluationResult)) in
  let! presentationResult :=
    presentationFrom presentationDefinition evaluated
      (Some {| PresentationFromOpts.holderDID := holderDID;
               PresentationFromOpts.presentationSubmissionLocation :=
                 Some presentationSubmissionLocation;
               PresentationFromOpts.basePresentationPayload :=
                 VerifiablePresentationFromOpts.basePresentationPayload opts |}) in
  let! presentation :=
    alloc (object_of (PresentationResult.presentation presentationResult)) in
  let! evaluationResults :=
    evaluatePresentation presentationDefinition presentation
      (Some {| Opts.holderDIDs := None;
               Opts.limitDisclosureSignatureSuites :=
                 Some limitDisclosureSignatureSuites;
               Opts.restrictToFormats := None;
               Opts.restrictToDIDMethods := None;
               Opts.presentationSubmission := None;
               Opts.generatePresentationSubmission := None |}) in
  match EvaluationResults.value evaluationResults with
  | None =>
      throw (ErrorObject
        "Could not get evaluation results from presentationResult")
  | Some value =>
      let proof :=
        {| IProof.type := proofOptions ≫= ProofOptions.type;
           IProof.verificationMethod :=
             signatureOptions ≫= SignatureOptions.verificationMethod;
           IProof.created :=
             match proofOptions ≫= ProofOptions.created with
             | Some created => if String.eqb created "" then now else created
             | None => now
             end;
           IProof.proofPurpose := proofOptions ≫= ProofOptions.proofPurpose;
           IProof.proofValue := signatureOptions ≫= SignatureOptions.proofValue;
           IProof.jws := signatureOptions ≫= SignatureOptions.jws;
           IProof.challenge := proofOptions ≫= ProofOptions.challenge;
           IProof.nonce := proofOptions ≫= ProofOptions.nonce;
           IProof.domain := proofOptions ≫= ProofOptions.domain |} in
      let callBackParams :=
        {| PresentationSignCallBackParams.options := opts;
           PresentationSignCallBackParams.presentation :=
             PresentationResult.presentation presentationResult;
           PresentationSignCallBackParams.presentationDefinition :=
             presentationDefinition;
           PresentationSignCallBackParams.selectedCredentials :=
             selectedCredentials;
           PresentationSignCallBackParams.proof := proof;
           PresentationSignCallBackParams.presentationSubmission := value;
           PresentationSignCallBackParams.evaluationResults :=
             evaluationResults |} in
      let! verifiablePresentation := signingCallBack callBackParams in
      ret {| VerifiablePresentationResult.verifiablePresentation :=
               verifiablePresentation;
             VerifiablePresentationResult.presentationSubmissionLocation :=
               presentationSubmissionLocation;
             VerifiablePresentationResult.presentationSubmission := value |}
  end.

End Methods.

(** ** The frame of a collaborator

    [touches_only r h h']: of the cells of [h], at most the one at [r] has
    another content in [h']; cells may have been added, none is gone. *)
Definition touches_only (r : Ref) (h h' : Heap) : Prop :=
  length h <= length h'
  /\ forall l, l < length h -> l <> r -> h' !! l = h !! l.

(** Collaborators that reach the heap through the reference they are
    handed: each changes at most the object it is given and what it
    allocates itself, and a wrapper it returns is the object it was given
    or a new one. *)
Class Framed (C : Collaborators) : Prop := {
  wrapped_credentials_frame : forall r h,
    touches_only r h (mapExternalVerifiableCredentialsToWrappedVcs r h).2
    /\ ((mapExternalVerifiableCredentialsToWrappedVcs r h).1 = r
        \/ length h <= (mapExternalVerifiableCredentialsToWrappedVcs r h).1);
  wrapped_presentation_frame : forall r h,
    touches_only r h (mapExternalVerifiablePresentationToWrappedVP r h).2
    /\ (WrappedVerifiablePresentation.vcs
          (mapExternalVerifiablePresentationToWrappedVP r h).1 = r
        \/ length h <= WrappedVerifiablePresentation.vcs
                         (mapExternalVerifiablePresentationToWrappedVP r h).1);
  evaluate_frame : forall w pd r opts h,
    touches_only r h (wrapper_evaluate w pd r opts h).2;
  selectFrom_frame : forall w pd r opts h,
    touches_only r h (wrapper_selectFrom w pd r opts h).2
}.

End PEX.

(** ** A small implementation of the collaborators

    It stands in for the library's own, to run the methods of [PEX] on
    examples.  Wrapping works in place.  Evaluation and selection redact
    the credentials they are handed, as limit disclosure does, and answer
    from what the credentials held.  Version discovery reports an error for
    an object without [input_descriptors]. *)

Module PEXScenario.
Import PEX.

Definition submission (descriptors : nat) : PresentationSubmission.t :=
  PresentationSubmission.mk "submission" "definition"
    (map (fun k => Descriptor.mk "descriptor" "ldp_vc"
                     ("$.verifiableCredential[" +:+ string_of_nat k +:+ "]"))
       (seq 0 descriptors)).

Definition unsatisfied : JSON :=
  JObj [("tag", JStr "FilterEvaluation"); ("status", JStr "error");
        ("message", JStr "Input candidate failed filter evaluation")].

(** The credentials of the object at [r]: the array itself, or the
    [verifiableCredential] of a presentation. *)
Definition credentials_at (r : Ref) (h : Heap) : list JSON :=
  match default JUndefined (h !! r) with
  | JArr credentials => credentials
  | other => elements (member other "verifiableCredential")
  end.

Definition redact (r : Ref) (h : Heap) : Heap :=
  <[r := JArr (map (fun _ => JStr "redacted") (credentials_at r h))]> h.

Definition wrap_presentation (r : Ref) (h : Heap)
  : WrappedVerifiablePresentation.t * Heap :=
  let content := default JUndefined (h !! r) in
  (WrappedVerifiablePresentation.mk
     (IPresentation.mk (member content "@context") (member content "type")
        (match member content "holder" with JStr did => Some did | _ => None end)
        (if truthy (member content "presentation_submission")
         then Some (submission 1) else None)
        (Some (elements (member content "verifiableCredential")))
        [])
     r,
   h).

Definition collaborators : Collaborators := {|
  IInternalPresentationDefinition := JSON;
  Validated := list JSON;
  Wrapper := nat;
  newWrapper := 0;
  toInternalPresentationDefinition := fun pd => pd;
  modelEntityToInternalPresentationDefinitionV1 := fun pd => pd;
  modelEntityInternalPresentationDefinitionV2 := fun pd => pd;
  mapExternalVerifiableCredentialsToWrappedVcs := fun r h => (r, h);
  mapExternalVerifiablePresentationToWrappedVP := wrap_presentation;
  wrapper_evaluate := fun w pd r opts h =>
    (EvaluationResults.mk
       (Some (submission (length (credentials_at r h))))
       None (Some [unsatisfied]) (credentials_at r h) None,
     S w, redact r h);
  wrapper_selectFrom := fun w pd r opts h =>
    (SelectResults.mk (Some []) WARN,
     S w, redact r h);
  wrapper_submissionFrom := fun w pd r h =>
    (submission (length (credentials_at r h)), S w, h);
  definitionVersionDiscovery := fun pd =>
    if truthy (member pd "input_descriptors")
    then DiscoveredVersion.mk (Some v2) None
    else DiscoveredVersion.mk None
           (Some "This is not a valid PresentationDefinition");
  validate := fun validators => []
|}.

(** A heap with a caller's list of two credentials and a presentation. *)
Definition credential (name : string) : JSON :=
  JObj [("type", JArr [JStr "VerifiableCredential"]);
        ("credentialSubject", JObj [("name", JStr name)])].

Definition wallet : Heap :=
  [JArr [credential "Alice"; credential "Bob"];
   JObj [("@context", JArr [JStr "https://www.w3.org/2018/credentials/v1"]);
         ("type", JArr [JStr "VerifiablePresentation"]);
         ("verifiableCredential", JArr [credential "Alice"])]].

Definition start : @State collaborators := @mkState collaborators 0 wallet.

End PEXScenario.

(* ================================================================== *)
(** * [evaluatePresentation] and [selectFrom], with collaborators that
      can throw                                                        *)
(* ================================================================== *)

(** In [PEX] a collaborator is a function that returns.  Here each call of
    [evaluatePresentation] and [selectFrom] into another file of the
    library ends as a call of JavaScript does: it returns, or it throws
    and the exception goes on to the caller of the method.  A call that
    throws may have changed the heap, and a method of a wrapper the
    wrapper, before it threw. *)

Module PEXExceptions.
Import PEX.

Class ThrowingCollaborators : Type := {
  IInternalPresentationDefinition : Type;
  Wrapper : Type;
  newWrapper : Wrapper;
  toInternalPresentationDefinition :
    JSON -> Completion IInternalPresentationDefinition;
  mapExternalVerifiableCredentialsToWrappedVcs :
    Ref -> Heap -> Completion Ref * Heap;
  mapExternalVerifiablePresentationToWrappedVP :
    Ref -> Heap -> Completion WrappedVerifiablePresentation.t * Heap;
  wrapper_evaluate :
    Wrapper -> IInternalPresentationDefinition -> Ref -> option Opts.t -> Heap ->
    Completion EvaluationResults.t * Wrapper * Heap;
  wrapper_selectFrom :
    Wrapper -> IInternalPresentationDefinition -> Ref -> option Opts.t -> Heap ->
    Completion SelectResults.t * Wrapper * Heap
}.

Section Methods.
Context `{ThrowingCollaborators}.

Record State : Type := mkState {
  _evaluationClientWrapper : Wrapper;
  heap : Heap
}.

Definition M (A : Type) : Type := State -> Completion A * State.

Definition ret {A} (a : A) : M A := fun st => (Normal a, st).

Definition throw {A} (e : Exception) : M A := fun st => (Throw e, st).

Definition mbind {A B} (c : M A) (k : A -> M B) : M B :=
  fun st =>
    match c st with
    | (Normal a, st') => k a st'
    | (Throw e, st') => (Throw e, st')
    end.

Notation "'let!' x ':=' c 'in' k" := (mbind c (fun x => k))
  (at level 10, x name, c at level 100, k at level 200).
Notation "'run' c 'in' k" := (mbind c (fun _ => k))
  (at level 10, c at level 100, k at level 200).

(** A call that reads and writes no object. *)
Definition pure_call {A} (c : Completion A) : M A := fun st => (c, st).

(** A call of a static collaborator that works on the heap. *)
Definition call {A} (f : Heap -> Completion A * Heap) : M A :=
  fun st =>
    let '(c, h) := f (heap st) in
    (c, mkState (_evaluationClientWrapper st) h).

(** [this._evaluationClientWrapper.method(...)]. *)
Definition call_this {A}
  (method : Wrapper -> Heap -> Completion A * Wrapper * Heap) : M A :=
  fun st =>
    let '(c, w, h) := method (_evaluationClientWrapper st) (heap st) in
    (c, mkState w h).

(** [wrapper.method(...)] on a wrapper held in a local constant that is not
    read again. *)
Definition call_on {A} (wrapper : Wrapper)
  (method : Wrapper -> Heap -> Completion A * Wrapper * Heap) : M A :=
  fun st =>
    let '(c, _, h) := method wrapper (heap st) in
    (c, mkState (_evaluationClientWrapper st) h).

(** [this._evaluationClientWrapper = wrapper]. *)
Definition set_evaluationClientWrapper (wrapper : Wrapper) : M unit :=
  fun st => (Normal tt, mkState wrapper (heap st)).

(** [JSON.parse(JSON.stringify(x))] for the object [x] at [r]: the copy is a
    new cell. *)
Definition deep_copy (r : Ref) : M Ref :=
  fun st =>
    match parse_stringify (default JUndefined (heap st !! r)) with
    | Normal v =>
        (Normal (length (heap st)),
         mkState (_evaluationClientWrapper st) (heap st ++ [v]))
    | Throw e => (Throw e, st)
    end.

Definition evaluatePresentation (presentationDefinition : JSON)
  (presentation : Ref) (opts : option Opts.t) : M EvaluationResults.t :=
  let generatePresentationSubmission :=
    resolve_generatePresentationSubmission opts in
  let! pd :=
    pure_call (toInternalPresentationDefinition presentationDefinition) in
  let! presentationCopy := deep_copy presentation in
  let! wrappedPresentation :=
    call (mapExternalVerifiablePresentationToWrappedVP presentationCopy) in
  let presentationSubmission :=
    match opts ≫= Opts.presentationSubmission with
    | Some submission => Some submission
    | None =>
        IPresentation.presentation_submission
          (WrappedVerifiablePresentation.presentation wrappedPresentation)
    end in
  if negb (is_some presentationSubmission) && negb generatePresentationSubmission
  then
    throw (ErrorObject
      "Either a presentation submission as part of the VP or provided separately was expected")
  else
    let holderDIDs :=
      match IPresentation.holder
              (WrappedVerifiablePresentation.presentation wrappedPresentation) with
      | Some holder => if String.eqb holder "" then [] else [holder]
      | None => []
      end in
    let updatedOpts :=
      {| Opts.holderDIDs := Some holderDIDs;
         Opts.limitDisclosureSignatureSuites :=
           opts ≫= Opts.limitDisclosureSignatureSuites;
         Opts.restrictToFormats := opts ≫= Opts.restrictToFormats;
         Opts.restrictToDIDMethods := opts ≫= Opts.restrictToDIDMethods;
         Opts.presentationSubmission := presentationSubmission;
         Opts.generatePresentationSubmission :=
           Some generatePresentationSubmission |} in
    let vcs := WrappedVerifiablePresentation.vcs wrappedPresentation in
    let! result :=
      call_this (fun w => wrapper_evaluate w pd vcs (Some updatedOpts)) in
    if has_descriptors result then
      let selectFromClientWrapper := newWrapper in
      let! selectResults :=
        call_on selectFromClientWrapper
          (fun w => wrapper_selectFrom w pd vcs (Some updatedOpts)) in
      if negb (Status_eqb
                 (SelectResults.areRequiredCredentialsPresent selectResults) ERROR)
      then ret (EvaluationResults.set_errors (Some []) result)
      else ret result
    else ret result.

Definition selectFrom (presentationDefinition : JSON)
  (verifiableCredentials : Ref) (opts : option Opts.t) : M SelectResults.t :=
  let! verifiableCredentialCopy := deep_copy verifiableCredentials in
  let! pd :=
    pure_call (toInternalPresentationDefinition presentationDefinition) in
  run set_evaluationClientWrapper newWrapper in
  let! wrapped :=
    call (mapExternalVerifiableCredentialsToWrappedVcs verifiableCredentialCopy) in
  call_this (fun w => wrapper_selectFrom w pd wrapped opts).

End Methods.

(** ** Collaborators that return

    The collaborators of [PEX], as collaborators that never throw. *)

Definition returning (C : PEX.Collaborators) : ThrowingCollaborators := {|
  IInternalPresentationDefinition := PEX.IInternalPresentationDefinition;
  Wrapper := PEX.Wrapper;
  newWrapper := PEX.newWrapper;
  toInternalPresentationDefinition := fun pd =>
    Normal (PEX.toInternalPresentationDefinition pd);
  mapExternalVerifiableCredentialsToWrappedVcs := fun r h =>
    let '(wrapped, h') := PEX.mapExternalVerifiableCredentialsToWrappedVcs r h in
    (Normal wrapped, h');
  mapExternalVerifiablePresentationToWrappedVP := fun r h =>
    let '(wrapped, h') := PEX.mapExternalVerifiablePresentationToWrappedVP r h in
    (Normal wrapped, h');
  wrapper_evaluate := fun w pd r opts h =>
    let '(result, w', h') := PEX.wrapper_evaluate w pd r opts h in
    (Normal result, w', h');
  wrapper_selectFrom := fun w pd r opts h =>
    let '(result, w', h') := PEX.wrapper_selectFrom w pd r opts h in
    (Normal result, w', h')
|}.

(** The state of an object of [PEX], as a state here. *)
Definition of_state {C : PEX.Collaborators} (st : @PEX.State C)
  : @State (returning C) :=
  @mkState (returning C) (PEX._evaluationClientWrapper st) (PEX.heap st).

End PEXExceptions.

(** ** A small implementation of the throwing collaborators

    The collaborators of [PEXScenario], with a conversion that refuses what
    is no presentation definition: an object without [id] or without
    [input_descriptors]. *)

Module PEXExceptionsScenario.
Import PEX PEXExceptions.

Definition not_a_definition : Exception :=
  ThrownValue (JStr "This is not a valid PresentationDefinition").

Definition collaborators : ThrowingCollaborators := {|
  IInternalPresentationDefinition := JSON;
  Wrapper := nat;
  newWrapper := 0;
  toInternalPresentationDefinition := fun pd =>
    if truthy (member pd "id") && truthy (member pd "input_descriptors")
    then Normal pd
    else Throw not_a_definition;
  mapExternalVerifiableCredentialsToWrappedVcs := fun r h => (Normal r, h);
  mapExternalVerifiablePresentationToWrappedVP := fun r h =>
    let '(wrapped, h') := PEXScenario.wrap_presentation r h in
    (Normal wrapped, h');
  wrapper_evaluate := fun w pd r opts h =>
    (Normal
       (EvaluationResults.mk
          (Some (PEXScenario.submission (length (PEXScenario.credentials_at r h))))
          None (Some [PEXScenario.unsatisfied])
          (PEXScenario.credentials_at r h) None),
     S w, PEXScenario.redact r h);
  wrapper_selectFrom := fun w pd r opts h =>
    (Normal (SelectResults.mk (Some []) WARN), S w, PEXScenario.redact r h)
|}.

(** A definition with one descriptor, which asks for the type of the
    credential. *)
Definition definition : JSON :=
  JObj [("id", JStr "definition");
        ("input_descriptors",
         JArr [JObj [("id", JStr "descriptor");
                     ("constraints",
                      JObj [("fields",
                             JArr [JObj [("path", JArr [JStr "$.type"])]])])]])].

(** A credential of Alice and a presentation of it, without a
    submission. *)
Definition credential : JSON :=
  JObj [("@context", JArr [JStr "https://www.w3.org/2018/credentials/v1"]);
        ("id", JStr "urn:uuid:7f94d397-3e70-4a43-945e-1a13069e636f");
        ("type", JArr [JStr "VerifiableCredential"]);
        ("issuer", JStr "did:example:issuer");
        ("issuanceDate", JStr "2022-01-01T00:00:00Z");
        ("credentialSubject",
         JObj [("id", JStr "did:example:holder"); ("name", JStr "Alice")]);
        ("proof",
         JObj [("type", JStr "Ed25519Signature2018");
               ("created", JStr "2022-01-01T00:00:00Z");
               ("proofPurpose", JStr "assertionMethod");
               ("verificationMethod", JStr "did:example:issuer#key-1");
               ("jws", JStr "eyJhbGciOiJFZERTQSJ9..c2lnbmF0dXJl")])].

Definition presentation : JSON :=
  JObj [("@context", JArr [JStr "https://www.w3.org/2018/credentials/v1"]);
        ("type", JArr [JStr "VerifiablePresentation"]);
        ("holder", JStr "did:example:holder");
        ("verifiableCredential", JArr [credential])].

(** An object that has served no call, and a heap with the caller's list
    of credentials at 0 and the presentation at 1. *)
Definition start : @State collaborators :=
  @mkState collaborators 0 [JArr [credential]; presentation].

End PEXExceptionsScenario.

(* ================================================================== *)
(** * Properties of PredicateRelatedFieldEvaluationHandler             *)
(* ================================================================== *)

Module PredicateRelatedFieldProperties.
Import PredicateRelatedFieldEvaluationHandler.

(** ** The helpers on small inputs *)

Example parseInt_decimal : parseInt "10" = Some 10%Z.
Proof. reflexivity. Qed.

Example parseInt_stops_at_the_first_other_character :
  parseInt " 7]" = Some 7%Z /\ parseInt "-0x1Fz" = Some (-31)%Z.
Proof. split; reflexivity. Qed.

Example parseInt_without_digits : parseInt "" = None /\ parseInt "[3" = None.
Proof. split; reflexivity. Qed.

Example index_of_a_descriptor_path :
  retrieveResultInputDescriptorIdx "$.input_descriptors[10]" = Some 10%Z
  /\ retrieveResultInputDescriptorIdx "$.input_descriptors[2].constraints.fields[0]"
     = Some 2%Z.
Proof. split; reflexivity. Qed.

(** Without ['$.input_descriptors['] in it, [indexOf] answers -1 and the
    digits are looked for from position 19 on. *)
Example index_of_another_string :
  retrieveResultInputDescriptorIdx "$" = None
  /\ retrieveResultInputDescriptorIdx "0123456789012345678" = None
  /\ retrieveResultInputDescriptorIdx "01234567890123456784]" = Some 4%Z.
Proof. repeat split; reflexivity. Qed.

Example concatenatePath_of_names :
  concatenatePath (JArr [JStr "$"; JStr "credentialSubject"; JStr "age"])
  = "$.credentialSubject.age".
Proof. reflexivity. Qed.

Example concatenatePath_of_an_index :
  concatenatePath (JArr [JStr "$"; JStr "type"; JNum 0]) = "$.type.0"
  /\ concatenatePath (JArr []) = "".
Proof. split; reflexivity. Qed.

Lemma scan_unfold idx c i j results :
  scan idx c i j results =
  if j <? length results then
    match examinePredicateForFilterEvaluationResult results j idx c i with
    | Normal results' => scan idx c i (S j) results'
    | Throw e => Throw e
    end
  else Normal results.
Proof.
  funelim (scan idx c i j results).
  - now rewrite e.
  - now rewrite Hlt, Hstep.
  - rewrite Hlt. now destruct (examinePredicateForFilterEvaluationResult _ _ _ _ _);
      [discriminate | congruence].
Qed.

(** One call of the step function, on indices that are in range. *)
Lemma examine_in_range results j idx c i r fs f :
  results !! j = Some r ->
  Constraints.fields c = Some fs ->
  fs !! i = Some f ->
  examinePredicateForFilterEvaluationResult results j idx c i
  = Normal (results ++ results_for_entry idx f r).
Proof.
  intros Hr Hfs Hf.
  unfold examinePredicateForFilterEvaluationResult, results_for_entry, matched,
    evaluationResult_of.
  rewrite Hr.
  destruct (entry_qualifies idx r); simpl; [| now rewrite app_nil_r].
  rewrite Hfs, Hf.
  destruct (field_qualifies f r); [| now rewrite app_nil_r].
  now destruct (Field.predicate f) as [[|]|].
Qed.

Lemma pushed_is_no_filter_entry idx r ev :
  is_filter_entry (pushed idx r ev) = false.
Proof. reflexivity. Qed.

Lemma no_filter_entry_no_result idx f r :
  is_filter_entry r = false -> results_for_entry idx f r = [].
Proof.
  unfold results_for_entry, matched, entry_qualifies, is_filter_entry.
  intros ->. now rewrite !andb_false_r.
Qed.

(** A log made of entries of other evaluators triggers nothing. *)
Definition inert (log : list HandlerCheckResult.t) : Prop :=
  Forall (fun r => is_filter_entry r = false) log.

Lemma inert_results_for_entry idx f r : inert (results_for_entry idx f r).
Proof.
  unfold results_for_entry. destruct (matched idx f r); constructor.
  - apply pushed_is_no_filter_entry.
  - constructor.
Qed.

Lemma inert_app l1 l2 : inert l1 -> inert l2 -> inert (l1 ++ l2).
Proof. unfold inert. intros. now apply Forall_app. Qed.

Lemma results_for_field_app idx f l1 l2 :
  results_for_field idx f (l1 ++ l2)
  = results_for_field idx f l1 ++ results_for_field idx f l2.
Proof. apply flat_map_app. Qed.

Lemma results_for_field_inert idx f l :
  inert l -> results_for_field idx f l = [].
Proof.
  induction 1 as [| r l Hr _ IH]; [reflexivity|].
  unfold results_for_field in *. simpl.
  now rewrite IH, no_filter_entry_no_result.
Qed.

Lemma inert_results_for_field idx f l : inert (results_for_field idx f l).
Proof.
  induction l as [| r l IH]; [constructor|].
  apply inert_app; [apply inert_results_for_entry | exact IH].
Qed.

(** The inner loop, from round [j]: it appends what the entries from [j]
    on produce, and the entries it appended produce nothing. *)
Lemma scan_closed_form idx c i fs f :
  Constraints.fields c = Some fs ->
  fs !! i = Some f ->
  forall n j results,
    pending j results = n ->
    j <= length results ->
    scan idx c i j results
    = Normal (results ++ results_for_field idx f (drop j results)).
Proof.
  intros Hfs Hf n.
  induction n as [n IH] using lt_wf_ind.
  intros j results Hn Hj.
  rewrite scan_unfold.
  destruct (j <? length results) eqn:Hlt.
  - apply Nat.ltb_lt in Hlt.
    destruct (lookup_lt_is_Some_2 results j Hlt) as [r Hr].
    pose proof (examine_in_range results j idx c i r fs f Hr Hfs Hf) as Hex.
    rewrite Hex.
    pose proof (pending_step _ _ _ _ _ _ Hlt Hex) as Hdec.
    rewrite (IH _ ltac:(subst n; exact Hdec) (S j) _ eq_refl)
      by (rewrite length_app; lia).
    rewrite (drop_S results r j Hr).
    rewrite drop_app_le by lia.
    rewrite results_for_field_app.
    rewrite (results_for_field_inert idx f (results_for_entry idx f r))
      by apply inert_results_for_entry.
    unfold results_for_field at 2. simpl.
    now rewrite app_nil_r, <- app_assoc.
  - apply Nat.ltb_ge in Hlt.
    rewrite drop_ge by lia. now rewrite app_nil_r.
Qed.

Lemma scan_from_start idx c i fs f log acc :
  Constraints.fields c = Some fs ->
  fs !! i = Some f ->
  inert acc ->
  scan idx c i 0 (log ++ acc)
  = Normal (log ++ (acc ++ results_for_field idx f log)).
Proof.
  intros Hfs Hf Hacc.
  rewrite (scan_closed_form idx c i fs f Hfs Hf _ 0 (log ++ acc) eq_refl) by lia.
  rewrite drop_0, results_for_field_app.
  rewrite (results_for_field_inert idx f acc Hacc).
  now rewrite app_nil_r, <- app_assoc.
Qed.

(** The loop over the fields, after the fields [seen] have been handled. *)
Lemma fields_loop_closed_form idx c fs log :
  Constraints.fields c = Some fs ->
  forall todo seen acc,
    fs = seen ++ todo ->
    inert acc ->
    for_loop (length todo) (length seen)
      (fun i results => scan idx c i 0 results) (log ++ acc)
    = Normal (log ++ (acc ++ flat_map (fun f => results_for_field idx f log) todo)).
Proof.
  intros Hfs todo.
  induction todo as [| f todo IH]; intros seen acc Hsplit Hacc; simpl.
  - now rewrite app_nil_r.
  - assert (Hf : fs !! length seen = Some f).
    { subst fs. rewrite lookup_app_r by lia. now rewrite Nat.sub_diag. }
    rewrite (scan_from_start idx c (length seen) fs f log acc Hfs Hf Hacc). simpl.
    specialize (IH (seen ++ [f]) (acc ++ results_for_field idx f log)).
    rewrite length_app in IH. simpl in IH. rewrite Nat.add_1_r in IH.
    rewrite IH.
    + now rewrite <- !app_assoc.
    + now rewrite <- app_assoc.
    + apply inert_app; [exact Hacc | apply inert_results_for_field].
Qed.

Lemma inert_flat_map {A} (g : A -> list HandlerCheckResult.t) xs :
  (forall x, inert (g x)) -> inert (flat_map g xs).
Proof.
  intros Hg. induction xs as [| x xs IH]; simpl; [constructor|].
  apply inert_app; auto.
Qed.

Lemma inert_results_for_descriptor idx d log :
  inert (results_for_descriptor idx d log).
Proof.
  unfold results_for_descriptor.
  destruct (InputDescriptor.constraints d) as [c|]; [| constructor].
  destruct (Constraints.fields c) as [fs|]; [| constructor].
  apply inert_flat_map. intros f. apply inert_results_for_field.
Qed.

Lemma inert_results_for_descriptors from ds log :
  inert (results_for_descriptors from ds log).
Proof.
  revert from. induction ds as [| d ds IH]; intros from; simpl; [constructor|].
  apply inert_app; [apply inert_results_for_descriptor | apply IH].
Qed.

(** Entries of other evaluators at the end of the log change nothing. *)
Lemma results_for_descriptor_inert_tail idx d log acc :
  inert acc ->
  results_for_descriptor idx d (log ++ acc) = results_for_descriptor idx d log.
Proof.
  intros Hacc. unfold results_for_descriptor.
  destruct (InputDescriptor.constraints d) as [c|]; [| reflexivity].
  destruct (Constraints.fields c) as [fs|]; [| reflexivity].
  induction fs as [| f fs IH]; simpl; [reflexivity|].
  rewrite IH, results_for_field_app, (results_for_field_inert idx f acc Hacc).
  now rewrite app_nil_r.
Qed.

(** One round of the loop of [handle]. *)
Lemma descriptor_round idx d log :
  match InputDescriptor.constraints d with
  | Some constraints =>
      match Constraints.fields constraints with
      | Some _ => examinePredicateRelatedField idx constraints log
      | None => Normal log
      end
  | None => Normal log
  end = Normal (log ++ results_for_descriptor idx d log).
Proof.
  unfold results_for_descriptor, examinePredicateRelatedField.
  destruct (InputDescriptor.constraints d) as [c|]; [| now rewrite app_nil_r].
  destruct (Constraints.fields c) as [fs|] eqn:Hfs; [| now rewrite app_nil_r].
  pose proof (fields_loop_closed_form idx c fs log Hfs fs [] [] eq_refl
                ltac:(constructor)) as H.
  simpl in H. rewrite app_nil_r in H. exact H.
Qed.

Lemma descriptors_loop_closed_form ds log :
  forall todo seen acc,
    ds = seen ++ todo ->
    inert acc ->
    for_loop (length todo) (length seen)
      (fun i results =>
         match ds !! i with
         | None => Throw TypeError
         | Some d =>
             match InputDescriptor.constraints d with
             | Some constraints =>
                 match Constraints.fields constraints with
                 | Some _ => examinePredicateRelatedField i constraints results
                 | None => Normal results
                 end
             | None => Normal results
             end
         end) (log ++ acc)
    = Normal (log ++ (acc ++ results_for_descriptors (length seen) todo log)).
Proof.
  intros todo.
  induction todo as [| d todo IH]; intros seen acc Hsplit Hacc; simpl.
  - now rewrite app_nil_r.
  - assert (Hd : ds !! length seen = Some d).
    { subst ds. rewrite lookup_app_r by lia. now rewrite Nat.sub_diag. }
    rewrite Hd, descriptor_round. simpl.
    rewrite (results_for_descriptor_inert_tail _ _ _ _ Hacc).
    specialize (IH (seen ++ [d]) (acc ++ results_for_descriptor (length seen) d log)).
    rewrite length_app in IH. simpl in IH. rewrite Nat.add_1_r in IH.
    rewrite <- app_assoc.
    rewrite IH.
    + now rewrite <- !app_assoc.
    + now rewrite <- app_assoc.
    + apply inert_app; [exact Hacc | apply inert_results_for_descriptor].
Qed.

(** [handle] returns, leaves [_p] alone, and appends to the log exactly the
    entries of [appended]. *)
Lemma handle_closed_form pd _p results :
  handle pd _p results = Normal (_p, results ++ appended pd results).
Proof.
  unfold handle, appended.
  pose proof (descriptors_loop_closed_form
                (PresentationDefinition.input_descriptors pd) results
                (PresentationDefinition.input_descriptors pd) [] [] eq_refl
                ltac:(constructor)) as H.
  simpl in H. rewrite app_nil_r in H. rewrite H. reflexivity.
Qed.

(** ** Property lists *)

Lemma assoc_assign_same k v ps : assoc k (assign k v ps) = Some v.
Proof.
  induction ps as [| [k' v'] ps IH]; simpl.
  - now rewrite String.eqb_refl.
  - destruct (String.eqb k k') eqn:E; simpl; rewrite ?String.eqb_refl, ?E; auto.
Qed.

Lemma assoc_assign_other k k' v ps :
  k <> k' -> assoc k' (assign k v ps) = assoc k' ps.
Proof.
  intros Hne. induction ps as [| [k0 v0] ps IH]; simpl.
  - destruct (String.eqb k' k) eqn:E; [| reflexivity].
    apply String.eqb_eq in E. congruence.
  - destruct (String.eqb k k0) eqn:E; simpl.
    + apply String.eqb_eq in E. subst k0.
      destruct (String.eqb k' k) eqn:E'; [| reflexivity].
      apply String.eqb_eq in E'. congruence.
    + now rewrite IH.
Qed.

Lemma assign_assign k a b ps : assign k a (assign k b ps) = assign k a ps.
Proof.
  induction ps as [| [k' v'] ps IH]; simpl.
  - now rewrite String.eqb_refl.
  - destruct (String.eqb k k') eqn:E; simpl; rewrite ?String.eqb_refl, ?E; congruence.
Qed.

Lemma truthy_member_object v k :
  truthy (member v k) = true -> exists ps, v = JObj ps.
Proof. destruct v; simpl; try discriminate. eauto. Qed.

(** ** Membership in what the handler appends *)

Lemma in_results_for_descriptors n ds log : forall from,
  In n (results_for_descriptors from ds log) <->
  exists k d c fs f r,
    ds !! k = Some d /\ InputDescriptor.constraints d = Some c /\
    Constraints.fields c = Some fs /\ In f fs /\ In r log /\
    matched (from + k) f r = true /\
    n = pushed (from + k) r (evaluationResult_of f r).
Proof.
  induction ds as [| d ds IH]; intros from; simpl.
  - split; [tauto | intros (k & d & ? & ? & ? & ? & Hk & _); discriminate].
  - rewrite in_app_iff, IH. split.
    + intros [Hin | (k & d' & c & fs & f & r & Hk & Hc & Hfs & Hf & Hr & Hm & ->)].
      * unfold results_for_descriptor in Hin.
        destruct (InputDescriptor.constraints d) as [c|] eqn:Hc; [| destruct Hin].
        destruct (Constraints.fields c) as [fs|] eqn:Hfs; [| destruct Hin].
        apply in_flat_map in Hin as (f & Hf & Hin).
        apply in_flat_map in Hin as (r & Hr & Hin).
        unfold results_for_entry in Hin.
        destruct (matched from f r) eqn:Hm; [| destruct Hin].
        destruct Hin as [<- | []].
        exists 0, d, c, fs, f, r. rewrite Nat.add_0_r. auto 10.
      * exists (S k), d', c, fs, f, r.
        replace (from + S k) with (S from + k) by lia. auto 10.
    + intros (k & d' & c & fs & f & r & Hk & Hc & Hfs & Hf & Hr & Hm & ->).
      destruct k as [| k]; simpl in Hk.
      * injection Hk as <-. left. rewrite Nat.add_0_r in *.
        unfold results_for_descriptor. rewrite Hc, Hfs.
        apply in_flat_map. exists f. split; [exact Hf|].
        apply in_flat_map. exists r. split; [exact Hr|].
        unfold results_for_entry. rewrite Hm. now left.
      * right. exists k, d', c, fs, f, r.
        replace (S from + k) with (from + S k) by lia. auto 10.
Qed.

(** ** The condition of the [if], read on its parts *)

Lemma matched_iff idx f r :
  HandlerCheckResult.evaluator r = "FilterEvaluation" ->
  carries_result_path r = true ->
  matched idx f r = true <-> predicate_applies idx f r.
Proof.
  intros Hev Hpath.
  unfold matched, entry_qualifies, field_qualifies, predicate_applies, result_path.
  unfold carries_result_path in Hpath. rewrite Hpath, Hev. simpl.
  rewrite !andb_true_iff, existsb_exists.
  split.
  - intros (Hidx & Hpred & p & Hin & Hp). apply String.eqb_eq in Hp. subst p.
    repeat split; auto. destruct (Field.predicate f); congruence.
  - intros (Hidx & Hpred & Hin). repeat split; auto.
    + destruct (Field.predicate f); congruence.
    + eexists. split; [exact Hin | apply String.eqb_refl].
Qed.

Lemma matched_filter_entry idx f r :
  matched idx f r = true ->
  HandlerCheckResult.evaluator r = "FilterEvaluation" /\ carries_result_path r = true.
Proof.
  unfold matched, entry_qualifies, carries_result_path.
  rewrite !andb_true_iff. intros [[[[[H1 H2] H3] H4] _] _].
  apply String.eqb_eq in H4. auto.
Qed.

Lemma carried_result_is_object r :
  carries_result_path r = true ->
  exists ps rs, HandlerCheckResult.payload r = JObj ps
                /\ member (HandlerCheckResult.payload r) "result" = JObj rs.
Proof.
  unfold carries_result_path. rewrite !andb_true_iff. intros [[_ H2] H3].
  apply truthy_member_object in H3 as [rs Hrs].
  assert (H2' := H2). rewrite Hrs in H2'.
  destruct (HandlerCheckResult.payload r) eqn:E; simpl in Hrs; try discriminate.
  eauto.
Qed.

(** Replacing the extracted value changes neither what is matched nor, for
    a preferred predicate, what is pushed. *)
Lemma with_result_value_spec idx f r v :
  matched idx f r = true ->
  matched idx f (with_result_value v r) = true
  /\ member (member (HandlerCheckResult.payload (with_result_value v r)) "result")
       "value" = v
  /\ (Field.predicate f = Some Preferred ->
      pushed idx (with_result_value v r)
        (evaluationResult_of f (with_result_value v r))
      = pushed idx r (evaluationResult_of f r)).
Proof.
  intros Hm.
  destruct (matched_filter_entry _ _ _ Hm) as [Hev Hc].
  destruct (carried_result_is_object _ Hc) as (ps & rs & Hp & Hr).
  assert (Hres : member (HandlerCheckResult.payload (with_result_value v r)) "result"
                 = JObj (assign "value" v rs)).
  { unfold with_result_value. simpl. rewrite assoc_assign_same. simpl.
    now rewrite Hr. }
  assert (Hpath : member (JObj (assign "value" v rs)) "path" = member (JObj rs) "path").
  { simpl. now rewrite assoc_assign_other. }
  split; [| split].
  - revert Hm. unfold matched, entry_qualifies, field_qualifies.
    rewrite Hres, Hpath, Hr. simpl. rewrite Hp. simpl. tauto.
  - rewrite Hres. simpl. now rewrite assoc_assign_same.
  - intros Hpref. unfold evaluationResult_of, pushed. rewrite Hpref, Hres, Hr. simpl.
    now rewrite assign_assign.
Qed.

(** ** The claims *)

(** C1, as the code has it.  For every ['FilterEvaluation'] entry [r] of the
    log that the handler matches to a field [f] whose predicate is
    ['preferred'], a run of [handle] appends the entry [new] whose payload
    is the copy of [r.payload.result] with [value] set to the Boolean
    [true]: the value is at [payload.value] (the appended payload is the
    copied result object itself).  The appended entry is the same whatever
    value [v] the matched entry carried, so nothing of the original value
    is in it. *)
Theorem preferred_predicate_appends_true pd _p results i d c fs f r :
  PresentationDefinition.input_descriptors pd !! i = Some d ->
  InputDescriptor.constraints d = Some c ->
  Constraints.fields c = Some fs ->
  In f fs ->
  Field.predicate f = Some Preferred ->
  In r results ->
  matched i f r = true ->
  exists added new,
    handle pd _p results = Normal (_p, results ++ added)
    /\ In new added
    /\ new = pushed i r
               (assign "value" (JBool true)
                  (spread (member (HandlerCheckResult.payload r) "result")))
    /\ member (HandlerCheckResult.payload new) "value" = JBool true
    /\ forall v,
         matched i f (with_result_value v r) = true
         /\ member (member (HandlerCheckResult.payload (with_result_value v r))
                      "result") "value" = v
         /\ pushed i (with_result_value v r)
              (evaluationResult_of f (with_result_value v r)) = new.
Proof.
  intros Hd Hc Hfs Hf Hpref Hr Hm.
  exists (appended pd results), (pushed i r (evaluationResult_of f r)).
  assert (Hev : evaluationResult_of f r
                = assign "value" (JBool true)
                    (spread (member (HandlerCheckResult.payload r) "result"))).
  { unfold evaluationResult_of. now rewrite Hpref. }
  split; [apply handle_closed_form |].
  split.
  { unfold appended. apply in_results_for_descriptors.
    exists i, d, c, fs, f, r. simpl. auto 10. }
  split; [now rewrite Hev |].
  split.
  { rewrite Hev. simpl. now rewrite assoc_assign_same. }
  intros v. destruct (with_result_value_spec i f r v Hm) as (H1 & H2 & H3). auto.
Qed.

(** The theorem at the age predicate: the age 25 is logged, [true] is appended. *)
Lemma preferred_predicate_appends_true_witness :
  exists added new,
    PredicateRelatedFieldEvaluationHandler.handle
      (Scenario.definition [Scenario.age_field Preferred]) JNull [Scenario.age_entry]
    = Normal (JNull, [Scenario.age_entry] ++ added)
    /\ In new added
    /\ new = Scenario.predicate_entry (JBool true).
Proof.
  destruct (preferred_predicate_appends_true
              (Scenario.definition [Scenario.age_field Preferred]) JNull
              [Scenario.age_entry] 0
              (Scenario.descriptor [Scenario.age_field Preferred])
              (Scenario.constraints [Scenario.age_field Preferred])
              [Scenario.age_field Preferred] (Scenario.age_field Preferred)
              Scenario.age_entry
              eq_refl eq_refl eq_refl (or_introl eq_refl) eq_refl
              (or_introl eq_refl) eq_refl)
    as (added & new & H1 & H2 & H3 & _).
  exists added, new. split; [exact H1 | split; [exact H2 | exact H3]].
Defined.

(** C1 as the claim words it fails.  For the age entry of the scenario the
    appended payload holds [path] and [value] and nothing under [result],
    so its [payload.result.value] is not [true]; [true] is at
    [payload.value]. *)
Lemma preferred_predicate_result_value_counterexample :
  PredicateRelatedFieldEvaluationHandler.handle
    (Scenario.definition [Scenario.age_field Preferred]) JNull [Scenario.age_entry]
  = Normal (JNull, [Scenario.age_entry; Scenario.predicate_entry (JBool true)])
  /\ member (HandlerCheckResult.payload (Scenario.predicate_entry (JBool true)))
       "result" = JUndefined
  /\ member (member (HandlerCheckResult.payload
                       (Scenario.predicate_entry (JBool true))) "result") "value"
     <> JBool true
  /\ member (HandlerCheckResult.payload (Scenario.predicate_entry (JBool true)))
       "value" = JBool true.
Proof.
  split; [vm_compute; reflexivity |].
  split; [reflexivity |].
  split; [discriminate | reflexivity].
Qed.

(** C3, as the code has it.  A run of [handle] appends [appended pd
    results]: one slot for every descriptor with fields, every field of it
    and every log entry, in that order ([results_for_entry]); one call of
    the step function fills one slot.  For a ['FilterEvaluation'] entry [r]
    that carries a result path, the slot holds a new result if and only if
    the index in [r.input_descriptor_path] is the descriptor's, the field
    has a predicate, and the field's paths contain the concrete path of
    [r].  With predicate ['required'] the new result has the descriptor
    path, the credential path of [r], evaluator ['PredicateRelatedField'],
    status info, the message, and as payload a copy of [r.payload.result]
    (not of [r.payload]). *)
Theorem predicate_result_appended_iff pd _p results :
  handle pd _p results = Normal (_p, results ++ appended pd results)
  /\ (forall log j r idx c fs k f,
        log !! j = Some r ->
        Constraints.fields c = Some fs ->
        fs !! k = Some f ->
        examinePredicateForFilterEvaluationResult log j idx c k
        = Normal (log ++ results_for_entry idx f r))
  /\ (forall idx f r,
        HandlerCheckResult.evaluator r = "FilterEvaluation" ->
        carries_result_path r = true ->
        (predicate_applies idx f r ->
         results_for_entry idx f r = [pushed idx r (evaluationResult_of f r)])
        /\ (~ predicate_applies idx f r -> results_for_entry idx f r = [])
        /\ (Field.predicate f = Some Required ->
            pushed idx r (evaluationResult_of f r)
            = {| HandlerCheckResult.input_descriptor_path :=
                   "$.input_descriptors[" +:+ string_of_nat idx +:+ "]";
                 HandlerCheckResult.verifiable_credential_path :=
                   HandlerCheckResult.verifiable_credential_path r;
                 HandlerCheckResult.evaluator := "PredicateRelatedField";
                 HandlerCheckResult.status := INFO;
                 HandlerCheckResult.message :=
                   Some "Input candidate valid for presentation submission";
                 HandlerCheckResult.payload :=
                   member (HandlerCheckResult.payload r) "result" |})).
Proof.
  split; [apply handle_closed_form |].
  split; [intros; eapply examine_in_range; eauto |].
  intros idx f r Hev Hc.
  pose proof (matched_iff idx f r Hev Hc) as Hiff.
  split; [| split].
  - intros Happ. unfold results_for_entry.
    now rewrite (proj2 Hiff Happ).
  - intros Hno. unfold results_for_entry.
    destruct (matched idx f r); [| reflexivity].
    exfalso. apply Hno, Hiff. reflexivity.
  - intros Hreq. unfold pushed, evaluationResult_of. rewrite Hreq.
    destruct (carried_result_is_object r Hc) as (ps & rs & _ & ->). reflexivity.
Qed.

(** The theorem at the age field with a required predicate. *)
Lemma predicate_result_appended_iff_witness :
  PredicateRelatedFieldEvaluationHandler.handle
    (Scenario.definition [Scenario.age_field Required]) JNull [Scenario.age_entry]
  = Normal (JNull, [Scenario.age_entry; Scenario.predicate_entry (JNum 25)])
  /\ results_for_entry 0 (Scenario.age_field Required) Scenario.age_entry
     = [Scenario.predicate_entry (JNum 25)].
Proof.
  destruct (predicate_result_appended_iff
              (Scenario.definition [Scenario.age_field Required]) JNull
              [Scenario.age_entry]) as (H1 & _ & H3).
  destruct (H3 0 (Scenario.age_field Required) Scenario.age_entry
              eq_refl eq_refl) as (H4 & _ & _).
  split; [exact H1 |].
  apply H4. repeat split; [discriminate | left; reflexivity].
Defined.

(** C3 as the claim words it fails: with predicate ['required'] the payload
    of the appended result is not the payload of the log entry; it is the
    [result] member of that payload. *)
Lemma required_predicate_payload_counterexample :
  PredicateRelatedFieldEvaluationHandler.handle
    (Scenario.definition [Scenario.age_field Required]) JNull [Scenario.age_entry]
  = Normal (JNull, [Scenario.age_entry; Scenario.predicate_entry (JNum 25)])
  /\ HandlerCheckResult.payload (Scenario.predicate_entry (JNum 25))
     <> HandlerCheckResult.payload Scenario.age_entry
  /\ HandlerCheckResult.payload (Scenario.predicate_entry (JNum 25))
     = member (HandlerCheckResult.payload Scenario.age_entry) "result".
Proof.
  split; [vm_compute; reflexivity |].
  split; [discriminate | reflexivity].
Qed.

(** C4.  A run of [handle] returns, leaves the credentials [_p] as they
    were and only appends to the log: every entry that was in the log is
    still there, at its index and unchanged, in particular its
    [payload.result.value].  One call of the step function, too, only
    appends. *)
Theorem handle_only_appends pd _p results :
  exists added,
    handle pd _p results = Normal (_p, results ++ added)
    /\ (forall j r, results !! j = Some r ->
                    (results ++ added) !! j = Some r
                    /\ forall r', (results ++ added) !! j = Some r' ->
                         member (member (HandlerCheckResult.payload r') "result") "value"
                         = member (member (HandlerCheckResult.payload r) "result") "value")
    /\ (forall log j idx c k,
          match examinePredicateForFilterEvaluationResult log j idx c k with
          | Normal log' => exists added', log' = log ++ added'
          | Throw _ => True
          end).
Proof.
  exists (appended pd results).
  split; [apply handle_closed_form |].
  split.
  - intros j r Hr.
    assert (H : (results ++ appended pd results) !! j = Some r).
    { apply lookup_app_l_Some. exact Hr. }
    split; [exact H |]. intros r' Hr'. congruence.
  - intros log j idx c k.
    destruct (examinePredicateForFilterEvaluationResult log j idx c k) as [log'|]
      eqn:E; [| exact I].
    apply examine_shape in E as [-> | (r & ev & _ & _ & ->)].
    + exists []. now rewrite app_nil_r.
    + eauto.
Qed.

(** X2.  [handle] returns for every definition and every log, although its
    inner loop runs over the array it appends to, and never throws; the
    log it leaves is the log it found followed by [appended]: for every
    descriptor with fields, in order, for every field, in order, the
    results for the entries of the log it found, in order. *)
Theorem handle_returns_the_closed_form pd _p results :
  handle pd _p results = Normal (_p, results ++ appended pd results)
  /\ forall n,
       In n (appended pd results) <->
       exists k d c fs f r,
         PresentationDefinition.input_descriptors pd !! k = Some d
         /\ InputDescriptor.constraints d = Some c
         /\ Constraints.fields c = Some fs
         /\ In f fs /\ In r results
         /\ matched k f r = true
         /\ n = pushed k r (evaluationResult_of f r).
Proof.
  split; [apply handle_closed_form |].
  intros n. unfold appended. rewrite in_results_for_descriptors. reflexivity.
Qed.

End PredicateRelatedFieldProperties.
(* ================================================================== *)
(** * Properties of limit disclosure                                   *)
(* ================================================================== *)

Module LimitDisclosureProperties.
Import LimitDisclosure.


(** ** Disclosures *)

Lemma in_ends_here d disclosed :
  In d (ends_here disclosed) <-> In ([], d) disclosed.
Proof.
  unfold ends_here. rewrite in_flat_map. split.
  - intros ([[| c p] d'] & Hin & Hd); simpl in Hd; [| destruct Hd].
    destruct Hd as [<- | []]. exact Hin.
  - intros Hin. exists ([], d). split; [exact Hin | now left].
Qed.



Lemma component_eqb_eq c c' : component_eqb c c' = true -> c = c'.
Proof.
  destruct c, c'; simpl; try discriminate.
  - intros E. apply Z.eqb_eq in E. congruence.
  - intros E. apply String.eqb_eq in E. congruence.
Qed.

Lemma in_under c q d disclosed :
  In (q, d) (under c disclosed) -> In (c :: q, d) disclosed.
Proof.
  unfold under. rewrite in_flat_map.
  intros ([[| c' p] d'] & Hin & Hq); simpl in Hq; [destruct Hq |].
  destruct (component_eqb c c') eqn:E; [| destruct Hq].
  apply component_eqb_eq in E. destruct Hq as [[= <- <-] | []]. now subst c'.
Qed.



Lemma in_descend p : forall q d disclosed,
  In (q, d) (descend p disclosed) -> In (p ++ q, d) disclosed.
Proof.
  induction p as [| c p IH]; intros q d disclosed Hin; [exact Hin |].
  apply in_under. apply IH. exact Hin.
Qed.

(** A disclosed path is the path of a disclosure. *)
Lemma disclosed_at_in disclosed p :
  disclosed_at disclosed p <> [] -> exists d, In (p, d) disclosed.
Proof.
  unfold disclosed_at. intros Hne.
  destruct (ends_here (descend p disclosed)) as [| d ends] eqn:E; [congruence |].
  exists d. rewrite <- (app_nil_r p). apply in_descend, in_ends_here.
  rewrite E. now left.
Qed.



(** ** Pruning *)















(** ** What pruning keeps, at every depth *)







(** ** The projected credential *)






End LimitDisclosureProperties.

(* ================================================================== *)
(** * Properties of PEX                                                *)
(* ================================================================== *)

Module PEXProperties.
Import PEX.

(** ** [constructPresentation] and [presentationFrom] *)

Definition credentials_v1 : string := "https://www.w3.org/2018/credentials/v1".
Definition submission_v1 : string :=
  "https://identity.foundation/presentation-exchange/submission/v1".

Lemma includes_app array more s :
  includes (array ++ more) s = includes array s || includes more s.
Proof. unfold includes. apply existsb_app. Qed.

Lemma includes_push s array : includes (push_unless_included s array) s = true.
Proof.
  unfold push_unless_included.
  destruct (includes array s) eqn:E; [exact E|].
  rewrite includes_app. simpl. now rewrite String.eqb_refl, orb_true_r.
Qed.

Lemma includes_push_keeps s t array :
  includes array t = true -> includes (push_unless_included s array) t = true.
Proof.
  unfold push_unless_included. intros Hin.
  destruct (includes array s); [exact Hin|].
  rewrite includes_app, Hin. reflexivity.
Qed.

(** What one guarded push adds: nothing, or the one string that was not
    there. *)
Lemma push_adds s array :
  exists added,
    push_unless_included s array = array ++ added
    /\ (added = [] \/ added = [JStr s] /\ includes array s = false).
Proof.
  unfold push_unless_included.
  destruct (includes array s) eqn:E.
  - exists []. rewrite app_nil_r. auto.
  - exists [JStr s]. auto.
Qed.

(** Two guarded pushes of different strings add no string twice and none
    that was there. *)
Lemma two_pushes_add s t array :
  s <> t ->
  exists added,
    push_unless_included t (push_unless_included s array) = array ++ added
    /\ List.NoDup added
    /\ (forall x, In x added -> exists u, x = JStr u /\ includes array u = false).
Proof.
  intros Hne.
  destruct (push_adds s array) as (a1 & -> & H1).
  destruct (push_adds t (array ++ a1)) as (a2 & -> & H2).
  exists (a1 ++ a2). rewrite <- app_assoc. split; [reflexivity|].
  destruct H1 as [-> | [-> Hs]], H2 as [-> | [-> Ht]]; simpl.
  - split; [constructor | intros x []].
  - rewrite app_nil_r in Ht.
    split; [constructor; [intros [] | constructor] |].
    intros x [<- | []]. eauto.
  - split; [constructor; [intros [] | constructor] |].
    intros x [<- | []]. eauto.
  - rewrite includes_app in Ht. apply orb_false_iff in Ht as [Ht _].
    split.
    + constructor; [| constructor; [intros [] | constructor]].
      intros [E | []]. congruence.
    + intros x [<- | [<- | []]]; eauto.
Qed.

Lemma one_push_adds s array :
  exists added,
    push_unless_included s array = array ++ added
    /\ List.NoDup added
    /\ (forall x, In x added -> exists u, x = JStr u /\ includes array u = false).
Proof.
  destruct (push_adds s array) as (a & -> & Ha).
  exists a. split; [reflexivity|].
  destruct Ha as [-> | [-> Hs]].
  - split; [constructor | intros x []].
  - split; [constructor; [intros [] | constructor] |].
    intros x [<- | []]. eauto.
Qed.

(** What [constructPresentation] guarantees about ['@context'] and [type]
    of the presentation [p] it returns from a base payload [base] and,
    possibly, a submission to embed. *)
Definition well_typed_presentation (base : option IPresentation.t)
  (embedded : option PresentationSubmission.t) (p : IPresentation.t) : Prop :=
  exists context type added_context added_type,
    IPresentation.context p = JArr context
    /\ IPresentation.type p = JArr type
    /\ context = initial_context base ++ added_context
    /\ type = initial_type base ++ added_type
    /\ includes context credentials_v1 = true
    /\ includes type "VerifiablePresentation" = true
    /\ (forall submission, embedded = Some submission ->
          IPresentation.presentation_submission p = Some submission
          /\ includes type "PresentationSubmission" = true
          /\ includes context submission_v1 = true)
    /\ List.NoDup added_context
    /\ List.NoDup added_type
    /\ (forall x, In x added_context ->
          exists u, x = JStr u /\ includes (initial_context base) u = false)
    /\ (forall x, In x added_type ->
          exists u, x = JStr u /\ includes (initial_type base) u = false).

Lemma constructPresentation_well_typed selectedCredentials opts :
  well_typed_presentation
    (opts ≫= ConstructOpts.basePresentationPayload)
    (opts ≫= ConstructOpts.presentationSubmission)
    (constructPresentation selectedCredentials opts).
Proof.
  unfold well_typed_presentation, constructPresentation.
  set (base := opts ≫= ConstructOpts.basePresentationPayload).
  destruct (opts ≫= ConstructOpts.presentationSubmission) as [ps|] eqn:Hps; simpl.
  - destruct (two_pushes_add credentials_v1 submission_v1 (initial_context base)
                ltac:(discriminate)) as (ac & Hc & Hnc & Hic).
    destruct (two_pushes_add "VerifiablePresentation" "PresentationSubmission"
                (initial_type base) ltac:(discriminate)) as (at_ & Ht & Hnt & Hit).
    unfold credentials_v1, submission_v1 in *.
    eexists _, _, ac, at_.
    split; [reflexivity|]. split; [reflexivity|].
    split; [exact Hc|]. split; [exact Ht|].
    split; [apply includes_push_keeps, includes_push|].
    split; [apply includes_push_keeps, includes_push|].
    split.
    { intros submission [= <-]. split; [reflexivity|].
      split; apply includes_push. }
    auto.
  - destruct (one_push_adds credentials_v1 (initial_context base))
      as (ac & Hc & Hnc & Hic).
    destruct (one_push_adds "VerifiablePresentation" (initial_type base))
      as (at_ & Ht & Hnt & Hit).
    unfold credentials_v1 in *.
    eexists _, _, ac, at_.
    split; [reflexivity|]. split; [reflexivity|].
    split; [exact Hc|]. split; [exact Ht|].
    split; [apply includes_push|].
    split; [apply includes_push|].
    split; [intros submission; discriminate|].
    auto.
Qed.



(** ** [evaluateCredentials] *)

(** C6.  [evaluateCredentials] returns.  When the evaluation yields no
    submission value, or one with an empty [descriptor_map], the returned
    [areRequiredCredentialsPresent] is [ERROR].  Otherwise it is the status
    that [selectFrom] computes on a new wrapper over the same definition,
    wrapped credentials and [opts] (on the heap that the evaluation left),
    and the returned [errors] are the errors of that selection. *)
Theorem evaluateCredentials_status `{Collaborators}
  presentationDefinition verifiableCredentials opts st :
  let wrapped :=
    mapExternalVerifiableCredentialsToWrappedVcs verifiableCredentials (heap st) in
  let pd := toInternalPresentationDefinition presentationDefinition in
  let evaluated := wrapper_evaluate newWrapper pd wrapped.1 opts wrapped.2 in
  let result := evaluated.1.1 in
  let selected := wrapper_selectFrom newWrapper pd wrapped.1 opts evaluated.2 in
  exists returned st',
    evaluateCredentials presentationDefinition verifiableCredentials opts st
    = (Normal returned, st')
    /\ ((EvaluationResults.value result = None
         \/ exists value, EvaluationResults.value result = Some value
                          /\ PresentationSubmission.descriptor_map value = []) ->
        EvaluationResults.areRequiredCredentialsPresent returned = Some ERROR)
    /\ (forall value,
          EvaluationResults.value result = Some value ->
          PresentationSubmission.descriptor_map value <> [] ->
          EvaluationResults.areRequiredCredentialsPresent returned
          = Some (SelectResults.areRequiredCredentialsPresent selected.1.1)
          /\ EvaluationResults.errors returned = SelectResults.errors selected.1.1).
Proof.
  simpl.
  unfold evaluateCredentials, mbind, call, call_this, call_on,
    set_evaluationClientWrapper, ret.
  destruct (mapExternalVerifiableCredentialsToWrappedVcs _ (heap st))
    as [wrapped h1]. simpl.
  destruct (wrapper_evaluate newWrapper _ wrapped opts h1) as [[result w] h2].
  simpl.
  unfold has_descriptors.
  destruct (EvaluationResults.value result) as [value|] eqn:Hv.
  - destruct (PresentationSubmission.descriptor_map value) as [| d ds] eqn:Hd;
      simpl.
    + eexists _, _. split; [reflexivity|]. split; [reflexivity|].
      intros value' [= <-] Hne. congruence.
    + destruct (wrapper_selectFrom newWrapper _ wrapped opts h2)
        as [[sel w'] h3]. simpl.
      eexists _, _. split; [reflexivity|]. simpl. split.
      * intros [Hnone | (value' & [= <-] & Hnil)]; congruence.
      * intros value' _ _. split; reflexivity.
  - eexists _, _. split; [reflexivity|]. split; [reflexivity|].
    intros value' Hsome. discriminate.
Qed.

(** ** [evaluatePresentation] *)

Definition expected_submission : Exception :=
  ErrorObject
    "Either a presentation submission as part of the VP or provided separately was expected".

(** The one condition under which [evaluatePresentation] throws: the wrapped
    copy of the presentation embeds no submission, [opts] provides none,
    and [generatePresentationSubmission] does not resolve to [true]. *)
Definition no_submission_at_all (wrapped : WrappedVerifiablePresentation.t)
  (opts : option Opts.t) : Prop :=
  IPresentation.presentation_submission
    (WrappedVerifiablePresentation.presentation wrapped) = None
  /\ opts ≫= Opts.presentationSubmission = None
  /\ resolve_generatePresentationSubmission opts = false.

(** Name the result of the next collaborator call in the goal. *)
Ltac finish_call :=
  match goal with
  | |- context [wrapper_evaluate ?w ?pd ?r ?o ?h] =>
      destruct (wrapper_evaluate w pd r o h) as [[? ?] ?]
  | |- context [wrapper_selectFrom ?w ?pd ?r ?o ?h] =>
      destruct (wrapper_selectFrom w pd r o h) as [[? ?] ?]
  | |- context [mapExternalVerifiablePresentationToWrappedVP ?r ?h] =>
      destruct (mapExternalVerifiablePresentationToWrappedVP r h) as [? ?]
  | |- context [mapExternalVerifiableCredentialsToWrappedVcs ?r ?h] =>
      destruct (mapExternalVerifiableCredentialsToWrappedVcs r h) as [? ?]
  end.

Lemma deep_copy_of_content `{Collaborators} r st content :
  heap st !! r = Some content ->
  content <> JUndefined ->
  deep_copy r st
  = (Normal (length (heap st)),
     mkState (_evaluationClientWrapper st) (heap st ++ [reparse content])).
Proof.
  intros Hr Hdef. unfold deep_copy. rewrite Hr. simpl.
  destruct content; try reflexivity. congruence.
Qed.

(** ** [validateDefinition] *)

(** C8, as the code has it.  [validateDefinition] returns the report of the
    validation engine, run on the validator of the discovered version,
    whenever version discovery reports no error.  When discovery reports an
    error (a non-empty [error] string), [validateDefinition] throws that
    error instead of returning a report. *)
Theorem validateDefinition_reports_or_throws `{Collaborators} presentationDefinition :
  let result := definitionVersionDiscovery presentationDefinition in
  (reports_error result = None ->
   validateDefinition presentationDefinition
   = Normal (validate [definition_validator result presentationDefinition]))
  /\ (forall error,
        reports_error result = Some error ->
        validateDefinition presentationDefinition = Throw (ThrownValue (JStr error)))
  /\ (forall error,
        reports_error result = Some error
        <-> DiscoveredVersion.error result = Some error /\ error <> "").
Proof.
  intros result. unfold validateDefinition. fold result.
  split; [intros ->; reflexivity |].
  split; [intros error ->; reflexivity |].
  intros error. unfold reports_error.
  destruct (DiscoveredVersion.error result) as [e|]; [| split; [discriminate | intros [? _]; discriminate]].
  destruct (String.eqb e "") eqn:E.
  - apply String.eqb_eq in E. subst e.
    split; [discriminate | intros [[= <-] Hne]; congruence].
  - apply String.eqb_neq in E.
    split; [intros [= <-]; auto | intros [[= <-] _]; reflexivity].
Qed.

(** The theorem on a definition that discovery accepts: a report comes back. *)
Lemma validateDefinition_reports_or_throws_witness :
  validateDefinition (H := PEXScenario.collaborators)
    (JObj [("id", JStr "definition"); ("input_descriptors", JArr [JObj []])])
  = Normal [].
Proof.
  destruct (validateDefinition_reports_or_throws (H := PEXScenario.collaborators)
              (JObj [("id", JStr "definition");
                     ("input_descriptors", JArr [JObj []])])) as (Hok & _).
  exact (Hok eq_refl).
Defined.

(** C8 as the claim words it fails: for an object that version discovery
    rejects, no report is returned; the discovery error is thrown. *)
Lemma validateDefinition_throws_counterexample :
  validateDefinition (H := PEXScenario.collaborators) (JObj [])
  = Throw (ThrownValue (JStr "This is not a valid PresentationDefinition"))
  /\ ~ (forall (C : Collaborators) (presentationDefinition : JSON),
          exists report,
            validateDefinition (H := C) presentationDefinition = Normal report).
Proof.
  split; [reflexivity |].
  intros Hall.
  destruct (Hall PEXScenario.collaborators (JObj [])) as [report Hreport].
  discriminate.
Qed.

(** ** The caller's objects *)

(** The cells below [m] are in [h'] what they are in [h]. *)
Definition preserved (m : nat) (h h' : Heap) : Prop :=
  m <= length h' /\ forall l, l < m -> h' !! l = h !! l.

Lemma preserved_refl h : preserved (length h) h h.
Proof. split; auto. Qed.

Lemma preserved_alloc h v : preserved (length h) h (h ++ [v]).
Proof.
  split; [rewrite length_app; lia |].
  intros l Hl. now apply lookup_app_l.
Qed.

(** A collaborator that is handed an object allocated after the first [m]
    cells leaves those cells alone. *)
Lemma preserved_step m r h0 h h' :
  preserved m h0 h -> m <= r -> touches_only r h h' -> preserved m h0 h'.
Proof.
  intros [Hlen Hsame] Hr [Hlen' Htouch]. split; [lia |].
  intros l Hl. rewrite Htouch by lia. auto.
Qed.

Lemma selectFrom_preserves `{C : Collaborators} {F : Framed C}
  presentationDefinition verifiableCredentials opts st :
  preserved (length (heap st)) (heap st)
    (heap (selectFrom presentationDefinition verifiableCredentials opts st).2).
Proof.
  unfold selectFrom, mbind, deep_copy.
  destruct (parse_stringify _) as [copy | e]; simpl; [| apply preserved_refl].
  unfold set_evaluationClientWrapper, call, call_this. simpl.
  pose proof (wrapped_credentials_frame (length (heap st)) (heap st ++ [copy]))
    as [Hwrap Hwhere].
  destruct (mapExternalVerifiableCredentialsToWrappedVcs _ _) as [wrapped h1].
  simpl in *.
  pose proof (selectFrom_frame newWrapper
                (toInternalPresentationDefinition presentationDefinition)
                wrapped opts h1) as Hsel.
  destruct (wrapper_selectFrom _ _ _ _ h1) as [[sel w] h2]. simpl in *.
  assert (H1 : preserved (length (heap st)) (heap st) h1).
  { eapply preserved_step; [apply preserved_alloc | | exact Hwrap]. lia. }
  eapply preserved_step; [exact H1 | | exact Hsel].
  rewrite length_app in Hwhere. simpl in Hwhere. lia.
Qed.

Lemma evaluatePresentation_preserves `{C : Collaborators} {F : Framed C}
  presentationDefinition presentation opts st :
  preserved (length (heap st)) (heap st)
    (heap (evaluatePresentation presentationDefinition presentation opts st).2).
Proof.
  unfold evaluatePresentation, mbind, deep_copy.
  destruct (parse_stringify _) as [copy | e]; simpl; [| apply preserved_refl].
  unfold call, call_this, call_on, ret, throw. simpl.
  pose proof (wrapped_presentation_frame (length (heap st)) (heap st ++ [copy]))
    as [Hwrap Hwhere].
  destruct (mapExternalVerifiablePresentationToWrappedVP _ _) as [wp h1].
  simpl in *.
  assert (H1 : preserved (length (heap st)) (heap st) h1).
  { eapply preserved_step; [apply preserved_alloc | | exact Hwrap]. lia. }
  assert (Hvcs : length (heap st) <= WrappedVerifiablePresentation.vcs wp).
  { rewrite length_app in Hwhere. simpl in Hwhere. lia. }
  destruct (negb _ && negb _); simpl; [exact H1 |].
  match goal with
  | |- context [wrapper_evaluate ?w ?pd ?r ?o ?h] =>
      pose proof (evaluate_frame w pd r o h) as Hev;
      destruct (wrapper_evaluate w pd r o h) as [[result w1] h2]
  end.
  simpl in *.
  assert (H2 : preserved (length (heap st)) (heap st) h2).
  { eapply preserved_step; [exact H1 | exact Hvcs | exact Hev]. }
  destruct (has_descriptors result); simpl; [| exact H2].
  match goal with
  | |- context [wrapper_selectFrom ?w ?pd ?r ?o ?h] =>
      pose proof (selectFrom_frame w pd r o h) as Hsel;
      destruct (wrapper_selectFrom w pd r o h) as [[sel w2] h3]
  end.
  simpl in *.
  assert (H3 : preserved (length (heap st)) (heap st) h3).
  { eapply preserved_step; [exact H2 | exact Hvcs | exact Hsel]. }
  destruct (negb _); simpl; exact H3.
Qed.

(** C10.  [selectFrom] and [evaluatePresentation] hand their collaborators a
    deep copy of the caller's credential list or presentation.  With
    collaborators that change at most the object they are handed, every
    object that was on the heap before the call, the caller's list or
    presentation among them, has the same content after the call, however
    the evaluation redacts the credentials it works on and whether the call
    returns or throws. *)
Theorem deep_copy_protects_caller `{C : Collaborators} {F : Framed C}
  presentationDefinition (r : Ref) opts st :
  (forall l, l < length (heap st) ->
     heap (selectFrom presentationDefinition r opts st).2 !! l = heap st !! l)
  /\ (forall l, l < length (heap st) ->
        heap (evaluatePresentation presentationDefinition r opts st).2 !! l
        = heap st !! l).
Proof.
  split; intros l Hl.
  - now apply selectFrom_preserves.
  - now apply evaluatePresentation_preserves.
Qed.

Lemma redact_touches_only r h : touches_only r h (PEXScenario.redact r h).
Proof.
  unfold touches_only, PEXScenario.redact. rewrite length_insert.
  split; [lia |]. intros l _ Hne. now apply list_lookup_insert_ne.
Qed.

Lemma touches_only_refl r h : touches_only r h h.
Proof. split; auto. Qed.

(** The small collaborators keep to the object they are handed. *)
Lemma scenario_collaborators_framed : Framed PEXScenario.collaborators.
Proof.
  constructor; simpl; intros.
  - split; [apply touches_only_refl | now left].
  - split; [apply touches_only_refl | now left].
  - apply redact_touches_only.
  - apply redact_touches_only.
Qed.

(** The theorem on the wallet: selecting from the list at 0 and evaluating
    the presentation at 1 leave both as they were; the redaction went to
    the copy, the new cell 2. *)
Lemma deep_copy_protects_caller_witness :
  (heap (selectFrom JNull 0 None PEXScenario.start).2 !! 0
   = Some (JArr [PEXScenario.credential "Alice"; PEXScenario.credential "Bob"])
   /\ heap (selectFrom JNull 0 None PEXScenario.start).2 !! 2
      = Some (JArr [JStr "redacted"; JStr "redacted"]))
  /\ heap (evaluatePresentation JNull 1
             (Some (Opts.mk None None None None None (Some true)))
             PEXScenario.start).2 !! 1
     = PEXScenario.wallet !! 1.
Proof.
  pose proof (deep_copy_protects_caller (F := scenario_collaborators_framed)
                JNull 0 None PEXScenario.start) as [Hsel _].
  pose proof (deep_copy_protects_caller (F := scenario_collaborators_framed)
                JNull 1 (Some (Opts.mk None None None None None (Some true)))
                PEXScenario.start) as [_ Hev].
  split; [split |].
  - exact (Hsel 0 (le_S _ _ (le_n 1))).
  - reflexivity.
  - exact (Hev 1 (le_n 2)).
Defined.

(** [evaluateCredentials] makes no copy: the same collaborators redact the
    caller's own list. *)
Lemma evaluateCredentials_works_on_the_caller_list :
  heap (evaluateCredentials JNull 0 None PEXScenario.start).2 !! 0
  = Some (JArr [JStr "redacted"; JStr "redacted"]).
Proof. reflexivity. Qed.

(** ** The state of the [PEX] object *)

(** X1.  [evaluateCredentials] installs a new wrapper before it evaluates:
    what it returns, and the state it leaves, do not depend on the wrapper
    that earlier calls left in the object. *)
Theorem evaluateCredentials_ignores_earlier_calls `{Collaborators}
  presentationDefinition verifiableCredentials opts st1 st2 :
  heap st1 = heap st2 ->
  evaluateCredentials presentationDefinition verifiableCredentials opts st1
  = evaluateCredentials presentationDefinition verifiableCredentials opts st2.
Proof.
  intros Hheap.
  unfold evaluateCredentials, mbind, call, call_this, call_on,
    set_evaluationClientWrapper, ret.
  rewrite Hheap. simpl.
  repeat first [ finish_call; simpl
               | match goal with
                 | |- context [if ?b then _ else _] => destruct b; simpl
                 end ];
    reflexivity.
Qed.

(** The theorem on the wallet, after three and after seven earlier calls. *)
Lemma evaluateCredentials_ignores_earlier_calls_witness :
  evaluateCredentials JNull 0 None
    (@mkState PEXScenario.collaborators 3 PEXScenario.wallet)
  = evaluateCredentials JNull 0 None
      (@mkState PEXScenario.collaborators 7 PEXScenario.wallet).
Proof.
  exact (evaluateCredentials_ignores_earlier_calls
           (H := PEXScenario.collaborators) JNull 0 None
           (@mkState PEXScenario.collaborators 3 PEXScenario.wallet)
           (@mkState PEXScenario.collaborators 7 PEXScenario.wallet) eq_refl).
Defined.

End PEXProperties.

(* ================================================================== *)
(** * When [evaluatePresentation] and [selectFrom] throw               *)
(* ================================================================== *)

Module ExceptionProperties.
Import PEX PEXExceptions PEXProperties.

(** ** The model of [PEX] is this model, for collaborators that return *)

Lemma returning_evaluatePresentation (C : PEX.Collaborators)
  presentationDefinition presentation opts (st : @PEX.State C) :
  evaluatePresentation (H := returning C) presentationDefinition presentation
    opts (of_state st)
  = let '(outcome, st') :=
      PEX.evaluatePresentation presentationDefinition presentation opts st in
    (outcome, of_state st').
Proof.
  unfold evaluatePresentation, PEX.evaluatePresentation, mbind, PEX.mbind,
    pure_call, deep_copy, PEX.deep_copy, of_state.
  simpl.
  destruct (parse_stringify _) as [copy | e]; [| reflexivity].
  unfold call, PEX.call, call_this, PEX.call_this, call_on, PEX.call_on,
    ret, PEX.ret, throw, PEX.throw.
  simpl.
  destruct (PEX.mapExternalVerifiablePresentationToWrappedVP _ _)
    as [wrapped h1].
  simpl.
  destruct (negb _ && negb _); [reflexivity |].
  simpl.
  match goal with
  | |- context [PEX.wrapper_evaluate ?w ?pd ?r ?o ?h] =>
      destruct (PEX.wrapper_evaluate w pd r o h) as [[result w1] h2]
  end.
  simpl.
  destruct (has_descriptors result); [| reflexivity].
  cbn [heap _evaluationClientWrapper PEX.heap PEX._evaluationClientWrapper].
  match goal with
  | |- context [PEX.wrapper_selectFrom ?w ?pd ?r ?o ?h] =>
      destruct (PEX.wrapper_selectFrom w pd r o h) as [[selected w2] h3]
  end.
  simpl.
  now destruct (negb _).
Qed.

Lemma returning_selectFrom (C : PEX.Collaborators)
  presentationDefinition verifiableCredentials opts (st : @PEX.State C) :
  selectFrom (H := returning C) presentationDefinition verifiableCredentials
    opts (of_state st)
  = let '(outcome, st') :=
      PEX.selectFrom presentationDefinition verifiableCredentials opts st in
    (outcome, of_state st').
Proof.
  unfold selectFrom, PEX.selectFrom, mbind, PEX.mbind, pure_call, deep_copy,
    PEX.deep_copy, of_state.
  simpl.
  destruct (parse_stringify _) as [copy | e]; [| reflexivity].
  unfold call, PEX.call, call_this, PEX.call_this,
    set_evaluationClientWrapper, PEX.set_evaluationClientWrapper.
  simpl.
  destruct (PEX.mapExternalVerifiableCredentialsToWrappedVcs _ _)
    as [wrapped h1].
  simpl.
  match goal with
  | |- context [PEX.wrapper_selectFrom ?w ?pd ?r ?o ?h] =>
      destruct (PEX.wrapper_selectFrom w pd r o h) as [[selected w2] h3]
  end.
  reflexivity.
Qed.

(** ** The exceptions of [evaluatePresentation] *)

(** The options that [evaluatePresentation] hands to [evaluate] and to
    [selectFrom]. *)
Definition updatedOpts (opts : option Opts.t)
  (wrapped : WrappedVerifiablePresentation.t) : Opts.t :=
  {| Opts.holderDIDs :=
       Some (singleton_if_truthy
               (IPresentation.holder
                  (WrappedVerifiablePresentation.presentation wrapped)));
     Opts.limitDisclosureSignatureSuites :=
       opts ≫= Opts.limitDisclosureSignatureSuites;
     Opts.restrictToFormats := opts ≫= Opts.restrictToFormats;
     Opts.restrictToDIDMethods := opts ≫= Opts.restrictToDIDMethods;
     Opts.presentationSubmission :=
       match opts ≫= Opts.presentationSubmission with
       | Some submission => Some submission
       | None =>
           IPresentation.presentation_submission
             (WrappedVerifiablePresentation.presentation wrapped)
       end;
     Opts.generatePresentationSubmission :=
       Some (resolve_generatePresentationSubmission opts) |}.

Section Causes.
Context `{ThrowingCollaborators}.
Variable presentationDefinition : JSON.
Variable presentation : Ref.
Variable opts : option Opts.t.
Variable st : State.

(** How far a call of [evaluatePresentation] has come: the definition is
    converted, the presentation copied, the copy wrapped. *)
Definition converted (pd : IInternalPresentationDefinition) : Prop :=
  toInternalPresentationDefinition presentationDefinition = Normal pd.

Definition copied (copy : JSON) : Prop :=
  parse_stringify (default JUndefined (heap st !! presentation)) = Normal copy.

Definition wrapped_as (copy : JSON)
  (wrapped : Completion WrappedVerifiablePresentation.t) (h : Heap) : Prop :=
  mapExternalVerifiablePresentationToWrappedVP (length (heap st))
    (heap st ++ [copy]) = (wrapped, h).

(** The six places of [evaluatePresentation] where an exception can come
    from, in the order of the source: the conversion of the definition, the
    copy of the presentation, the wrapping of the copy, the test for a
    submission, [evaluate] and [selectFrom]. *)
Inductive throws : Exception -> Prop :=
| conversion_throws e :
    toInternalPresentationDefinition presentationDefinition = Throw e ->
    throws e
| copy_throws pd :
    converted pd ->
    default JUndefined (heap st !! presentation) = JUndefined ->
    throws SyntaxError
| wrapping_throws pd copy e h1 :
    converted pd -> copied copy -> wrapped_as copy (Throw e) h1 ->
    throws e
| submission_missing pd copy wrapped h1 :
    converted pd -> copied copy -> wrapped_as copy (Normal wrapped) h1 ->
    no_submission_at_all wrapped opts ->
    throws expected_submission
| evaluate_throws pd copy wrapped h1 e w h2 :
    converted pd -> copied copy -> wrapped_as copy (Normal wrapped) h1 ->
    ~ no_submission_at_all wrapped opts ->
    wrapper_evaluate (_evaluationClientWrapper st) pd
      (WrappedVerifiablePresentation.vcs wrapped)
      (Some (updatedOpts opts wrapped)) h1 = (Throw e, w, h2) ->
    throws e
| selectFrom_throws pd copy wrapped h1 result w h2 e w' h3 :
    converted pd -> copied copy -> wrapped_as copy (Normal wrapped) h1 ->
    ~ no_submission_at_all wrapped opts ->
    wrapper_evaluate (_evaluationClientWrapper st) pd
      (WrappedVerifiablePresentation.vcs wrapped)
      (Some (updatedOpts opts wrapped)) h1 = (Normal result, w, h2) ->
    has_descriptors result = true ->
    wrapper_selectFrom newWrapper pd
      (WrappedVerifiablePresentation.vcs wrapped)
      (Some (updatedOpts opts wrapped)) h2 = (Throw e, w', h3) ->
    throws e.

Definition outcome : Completion EvaluationResults.t :=
  (evaluatePresentation presentationDefinition presentation opts st).1.

Lemma no_submission_test wrapped :
  negb (is_some
          match opts ≫= Opts.presentationSubmission with
          | Some submission => Some submission
          | None =>
              IPresentation.presentation_submission
                (WrappedVerifiablePresentation.presentation wrapped)
          end)
  && negb (resolve_generatePresentationSubmission opts) = true
  <-> no_submission_at_all wrapped opts.
Proof.
  unfold no_submission_at_all.
  destruct (opts ≫= Opts.presentationSubmission) as [submission|];
    destruct (IPresentation.presentation_submission _) as [embedded|];
    destruct (resolve_generatePresentationSubmission opts); simpl;
    split; try discriminate; try tauto;
    intros (? & ? & ?); discriminate.
Qed.

Lemma copy_fails :
  (exists e, parse_stringify (default JUndefined (heap st !! presentation))
             = Throw e)
  <-> default JUndefined (heap st !! presentation) = JUndefined.
Proof.
  destruct (default JUndefined (heap st !! presentation)); simpl;
    split; try discriminate; try (intros [e He]; discriminate); eauto.
Qed.

Lemma throws_sound e : outcome = Throw e -> throws e.
Proof.
  unfold outcome, evaluatePresentation, mbind, pure_call, deep_copy.
  destruct (toInternalPresentationDefinition presentationDefinition)
    as [pd | e0] eqn:Hpd.
  2: { simpl. intros [= ->]. now apply conversion_throws. }
  destruct (parse_stringify _) as [copy | e0] eqn:Hcopy.
  2: { simpl. intros [= ->].
       assert (Hu : default JUndefined (heap st !! presentation) = JUndefined)
         by (apply copy_fails; eauto).
       rewrite Hu in Hcopy. injection Hcopy as <-.
       now apply (copy_throws pd). }
  unfold call, call_this, call_on, ret, throw.
  cbn [heap _evaluationClientWrapper].
  destruct (mapExternalVerifiablePresentationToWrappedVP _ _)
    as [[wrapped | e0] h1] eqn:Hwrap.
  2: { simpl. intros [= ->]. now apply (wrapping_throws pd copy e h1). }
  cbn [heap _evaluationClientWrapper].
  destruct (negb _ && negb _) eqn:Htest.
  { simpl. intros [= <-]. apply no_submission_test in Htest.
    now apply (submission_missing pd copy wrapped h1). }
  assert (Hyes : ~ no_submission_at_all wrapped opts).
  { intros Hno. apply no_submission_test in Hno. congruence. }
  match goal with
  | |- context [wrapper_evaluate ?w ?p ?r ?o ?h] =>
      change o with (Some (updatedOpts opts wrapped));
      destruct (wrapper_evaluate w p r (Some (updatedOpts opts wrapped)) h)
        as [[[result | e0] w1] h2] eqn:Hev
  end.
  2: { simpl. intros [= ->].
       now apply (evaluate_throws pd copy wrapped h1 e w1 h2). }
  cbn [heap _evaluationClientWrapper].
  destruct (has_descriptors result) eqn:Hd; [| simpl; discriminate].
  cbn [heap _evaluationClientWrapper].
  match goal with
  | |- context [wrapper_selectFrom ?w ?p ?r ?o ?h] =>
      destruct (wrapper_selectFrom w p r (Some (updatedOpts opts wrapped)) h)
        as [[[selected | e0] w2] h3] eqn:Hsel
  end.
  { simpl. destruct (negb (Status_eqb _ _)); cbn; intros Hx; discriminate Hx. }
  simpl. intros [= ->].
  now apply (selectFrom_throws pd copy wrapped h1 result w1 h2 e w2 h3).
Qed.

Lemma throws_complete e : throws e -> outcome = Throw e.
Proof.
  unfold outcome, evaluatePresentation, mbind, pure_call, deep_copy, converted,
    copied, wrapped_as.
  intros [e0 Hpd
         | pd Hpd Hu
         | pd copy e0 h1 Hpd Hcopy Hwrap
         | pd copy wrapped h1 Hpd Hcopy Hwrap Hno
         | pd copy wrapped h1 e0 w h2 Hpd Hcopy Hwrap Hyes Hev
         | pd copy wrapped h1 result w h2 e0 w' h3 Hpd Hcopy Hwrap Hyes Hev Hd
             Hsel];
    rewrite Hpd; [reflexivity | now rewrite Hu | ..];
    rewrite Hcopy; unfold call, call_this, call_on, ret, throw;
    cbn [heap _evaluationClientWrapper]; rewrite Hwrap;
    [reflexivity | ..];
    cbn [heap _evaluationClientWrapper].
  - apply no_submission_test in Hno. now rewrite Hno.
  - assert (Htest : forall b, b = true <-> no_submission_at_all wrapped opts ->
                              b = false).
    { intros [|] Hb; [exfalso; apply Hyes; now apply Hb | reflexivity]. }
    rewrite (Htest _ (no_submission_test wrapped)).
    cbn [heap _evaluationClientWrapper].
    match goal with
    | |- context [wrapper_evaluate ?w0 ?p ?r ?o ?h] =>
        change o with (Some (updatedOpts opts wrapped))
    end.
    now rewrite Hev.
  - assert (Htest : forall b, b = true <-> no_submission_at_all wrapped opts ->
                              b = false).
    { intros [|] Hb; [exfalso; apply Hyes; now apply Hb | reflexivity]. }
    rewrite (Htest _ (no_submission_test wrapped)).
    cbn [heap _evaluationClientWrapper].
    match goal with
    | |- context [wrapper_evaluate ?w0 ?p ?r ?o ?h] =>
        change o with (Some (updatedOpts opts wrapped))
    end.
    rewrite Hev. cbn [heap _evaluationClientWrapper]. rewrite Hd.
    cbn [heap _evaluationClientWrapper].
    match goal with
    | |- context [wrapper_selectFrom ?w0 ?p ?r ?o ?h] =>
        change o with (Some (updatedOpts opts wrapped))
    end.
    now rewrite Hsel.
Qed.

End Causes.

(** C7, as the code has it.  [evaluatePresentation] throws exactly when one
    of six things happens, in this order: the conversion of the definition
    throws; the presentation is [undefined], which has no JSON text to
    copy; the wrapping of the copy throws; the wrapped copy embeds no
    [presentation_submission], [opts.presentationSubmission] is not
    provided and [generatePresentationSubmission] does not resolve to
    [true]; [evaluate] throws; [selectFrom] throws.  The exception is the
    collaborator's own, the [SyntaxError] of [JSON.parse], or, for the
    missing submission, the [Error] that asks for one; so, once the
    definition is converted and the presentation copied and wrapped, a
    missing submission makes the call throw that [Error].  Left out of
    [opts], [generatePresentationSubmission] resolves to [true] exactly
    when [opts.presentationSubmission] is provided.  What the evaluation
    records in its result never makes [evaluatePresentation] itself throw:
    when [evaluate] returns, and [selectFrom] where it is called, the call
    returns the evaluation's result, whatever errors that result records. *)
Theorem evaluatePresentation_exceptions `{ThrowingCollaborators}
  presentationDefinition presentation opts st :
  let outcome := (evaluatePresentation presentationDefinition presentation opts st).1 in
  (forall e,
     outcome = Throw e
     <-> throws presentationDefinition presentation opts st e)
  /\ (forall pd copy wrapped h1,
        converted presentationDefinition pd ->
        copied presentation st copy ->
        wrapped_as st copy (Normal wrapped) h1 ->
        (no_submission_at_all wrapped opts ->
         outcome = Throw expected_submission)
        /\ (forall result w h2,
              ~ no_submission_at_all wrapped opts ->
              wrapper_evaluate (_evaluationClientWrapper st) pd
                (WrappedVerifiablePresentation.vcs wrapped)
                (Some (updatedOpts opts wrapped)) h1 = (Normal result, w, h2) ->
              (has_descriptors result = true ->
               exists selected w' h3,
                 wrapper_selectFrom newWrapper pd
                   (WrappedVerifiablePresentation.vcs wrapped)
                   (Some (updatedOpts opts wrapped)) h2
                 = (Normal selected, w', h3)) ->
              exists returned,
                outcome = Normal returned
                /\ (returned = result
                    \/ returned = EvaluationResults.set_errors (Some []) result)))
  /\ (opts ≫= Opts.generatePresentationSubmission = None ->
      (resolve_generatePresentationSubmission opts = true
       <-> opts ≫= Opts.presentationSubmission <> None)).
Proof.
  intros outcome. subst outcome.
  fold (outcome presentationDefinition presentation opts st).
  assert (Hiff : forall e,
            outcome presentationDefinition presentation opts st = Throw e
            <-> throws presentationDefinition presentation opts st e).
  { intros e. split; [apply throws_sound | apply throws_complete]. }
  split; [exact Hiff |]. split.
  - intros pd copy wrapped h1 Hpd Hcopy Hwrap. split.
    + intros Hno. apply Hiff.
      now apply (submission_missing _ _ _ _ pd copy wrapped h1).
    + intros result w h2 Hyes Hev Hsel.
      destruct (outcome presentationDefinition presentation opts st)
        as [returned | e] eqn:Hout.
      * exists returned. split; [reflexivity |].
        revert Hout.
        unfold outcome, evaluatePresentation, mbind, pure_call, deep_copy.
        unfold converted in Hpd. unfold copied in Hcopy.
        unfold wrapped_as in Hwrap.
        rewrite Hpd, Hcopy. unfold call, call_this, call_on, ret, throw.
        cbn [heap _evaluationClientWrapper]. rewrite Hwrap.
        cbn [heap _evaluationClientWrapper].
        destruct (negb _ && negb _); [discriminate |].
        cbn [heap _evaluationClientWrapper].
        match goal with
        | |- context [wrapper_evaluate ?w0 ?p ?r ?o ?h] =>
            change o with (Some (updatedOpts opts wrapped))
        end.
        rewrite Hev. cbn [heap _evaluationClientWrapper].
        destruct (has_descriptors result); [| cbn; intros [= <-]; now left].
        destruct (Hsel eq_refl) as (selected & w' & h3 & Hs).
        cbn [heap _evaluationClientWrapper].
        match goal with
        | |- context [wrapper_selectFrom ?w0 ?p ?r ?o ?h] =>
            change o with (Some (updatedOpts opts wrapped))
        end.
        rewrite Hs. cbn [heap _evaluationClientWrapper].
        destruct (negb (Status_eqb _ _)); cbn; intros [= <-]; auto.
      * exfalso. apply throws_sound in Hout.
        unfold converted in Hpd. unfold copied in Hcopy.
        unfold wrapped_as in Hwrap.
        destruct Hout
          as [e0 Hpd'
             | pd' Hpd' Hu
             | pd' copy' e0 h1' Hpd' Hcopy' Hwrap'
             | pd' copy' wrapped' h1' Hpd' Hcopy' Hwrap' Hno
             | pd' copy' wrapped' h1' e0 w0 h2' Hpd' Hcopy' Hwrap' _ Hev'
             | pd' copy' wrapped' h1' result' w0 h2' e0 w' h3 Hpd' Hcopy' Hwrap'
                 _ Hev' Hd' Hsel'];
          unfold converted, copied, wrapped_as in *.
        -- congruence.
        -- rewrite Hu in Hcopy. discriminate.
        -- assert (copy' = copy) as -> by congruence. congruence.
        -- assert (copy' = copy) as -> by congruence.
           assert (wrapped' = wrapped) as -> by congruence. contradiction.
        -- assert (copy' = copy) as -> by congruence.
           assert (pd' = pd) as -> by congruence.
           assert (wrapped' = wrapped /\ h1' = h1) as [-> ->]
             by (split; congruence).
           congruence.
        -- assert (copy' = copy) as -> by congruence.
           assert (pd' = pd) as -> by congruence.
           assert (wrapped' = wrapped /\ h1' = h1) as [-> ->]
             by (split; congruence).
           assert (result' = result /\ h2' = h2) as [-> ->]
             by (split; congruence).
           destruct (Hsel Hd') as (selected & w'' & h3' & Hs). congruence.
  - intros Hg. unfold resolve_generatePresentationSubmission. rewrite Hg.
    destruct (opts ≫= Opts.presentationSubmission); simpl; split; congruence.
Qed.

(** The theorem on the presentation of the scenario, which embeds no
    submission, for the definition of the scenario and no [opts]: the
    definition is converted, the presentation copied and wrapped, and the
    call throws the [Error] that asks for a submission. *)
Lemma evaluatePresentation_exceptions_witness :
  (evaluatePresentation (H := PEXExceptionsScenario.collaborators)
     PEXExceptionsScenario.definition 1 None PEXExceptionsScenario.start).1
  = Throw expected_submission.
Proof.
  destruct (evaluatePresentation_exceptions
              (H := PEXExceptionsScenario.collaborators)
              PEXExceptionsScenario.definition 1 None
              PEXExceptionsScenario.start) as (_ & Hguard & _).
  refine (proj1 (Hguard PEXExceptionsScenario.definition _ _ _
                   eq_refl eq_refl eq_refl) _).
  repeat split.
Defined.

(** C7 as the claim words it fails: handed no presentation at all,
    [evaluatePresentation] throws, the [SyntaxError] of [JSON.parse],
    although [opts.presentationSubmission] is provided and
    [generatePresentationSubmission] resolves to [true]. *)
Lemma evaluatePresentation_syntax_error_counterexample :
  (evaluatePresentation (H := PEXExceptionsScenario.collaborators)
     PEXExceptionsScenario.definition 5
     (Some (Opts.mk None None None None (Some (PEXScenario.submission 1)) None))
     PEXExceptionsScenario.start).1
  = Throw SyntaxError
  /\ Some (Opts.mk None None None None (Some (PEXScenario.submission 1)) None)
       ≫= Opts.presentationSubmission
     = Some (PEXScenario.submission 1)
  /\ resolve_generatePresentationSubmission
       (Some (Opts.mk None None None None (Some (PEXScenario.submission 1)) None))
     = true
  /\ PEXExceptionsScenario.start.(heap) !! 5 = None.
Proof. repeat split. Qed.

(** ** An argument that is [undefined] *)

(** X14.  [undefined] has no JSON text.  Handed [undefined] for the
    credential list, [selectFrom] throws the [SyntaxError] of [JSON.parse]
    on its first line, whatever the definition is.  Handed [undefined] for
    the presentation, [evaluatePresentation] first converts the
    definition: it throws what the conversion throws, and the
    [SyntaxError] when the definition is converted.  Either way nothing is
    wrapped, evaluated or selected, and the object and the heap are as
    they were. *)
Theorem undefined_argument_is_a_syntax_error `{ThrowingCollaborators}
  presentationDefinition (r : Ref) opts st :
  default JUndefined (heap st !! r) = JUndefined ->
  selectFrom presentationDefinition r opts st = (Throw SyntaxError, st)
  /\ evaluatePresentation presentationDefinition r opts st
     = (match toInternalPresentationDefinition presentationDefinition with
        | Normal _ => Throw SyntaxError
        | Throw e => Throw e
        end, st).
Proof.
  intros Hundefined.
  unfold selectFrom, evaluatePresentation, mbind, pure_call, deep_copy.
  rewrite Hundefined. simpl. split; [reflexivity |].
  now destruct (toInternalPresentationDefinition presentationDefinition).
Qed.

(** The theorem on the scenario, for a reference to nothing and the
    definition of the scenario. *)
Lemma undefined_argument_is_a_syntax_error_witness :
  selectFrom (H := PEXExceptionsScenario.collaborators)
    PEXExceptionsScenario.definition 5 None PEXExceptionsScenario.start
  = (Throw SyntaxError, PEXExceptionsScenario.start)
  /\ evaluatePresentation (H := PEXExceptionsScenario.collaborators)
       PEXExceptionsScenario.definition 5 None PEXExceptionsScenario.start
     = (Throw SyntaxError, PEXExceptionsScenario.start).
Proof.
  exact (undefined_argument_is_a_syntax_error
           (H := PEXExceptionsScenario.collaborators)
           PEXExceptionsScenario.definition 5 None
           PEXExceptionsScenario.start eq_refl).
Defined.

End ExceptionProperties.

(* ================================================================== *)
(** * The two path helpers of the handler, on every input              *)
(* ================================================================== *)

Module PathProperties.
Import PredicateRelatedFieldEvaluationHandler.

(** ** Strings *)

Lemma append_cons c s t : String c s +:+ t = String c (s +:+ t).
Proof. reflexivity. Qed.

Lemma append_nil_r s : s +:+ "" = s.
Proof. induction s as [| c s IH]; [reflexivity |]. now rewrite append_cons, IH. Qed.

Lemma append_assoc s t u : (s +:+ t) +:+ u = s +:+ (t +:+ u).
Proof.
  induction s as [| c s IH]; [reflexivity |]. now rewrite !append_cons, IH.
Qed.

Lemma length_append s t :
  String.length (s +:+ t) = String.length s + String.length t.
Proof.
  induction s as [| c s IH]; [reflexivity |]. rewrite append_cons. simpl.
  now rewrite IH.
Qed.

Lemma substring_all s : String.substring 0 (String.length s) s = s.
Proof. induction s as [| c s IH]; simpl; congruence. Qed.

Lemma substring_head s t :
  String.substring 0 (String.length s) (s +:+ t) = s.
Proof.
  induction s as [| c s IH]; [now destruct t |].
  rewrite append_cons. simpl. now rewrite IH.
Qed.

Lemma substring_tail s t :
  String.substring (String.length s) (String.length t) (s +:+ t) = t.
Proof.
  induction s as [| c s IH]; [apply substring_all |].
  rewrite append_cons. exact IH.
Qed.

(** [s.substring(s.length - 1)] of a string that ends in one more
    character drops that character; of the empty string it is empty. *)
Lemma substring_without_last s c :
  let t := s +:+ String c "" in
  substring t 0 (Some (Z.of_nat (String.length t) - 1)%Z) = s.
Proof.
  simpl. unfold substring. rewrite length_append. simpl.
  replace (Z.max 0 (Z.min 0 (Z.of_nat (String.length s + 1)))) with 0%Z by lia.
  replace (Z.max 0 (Z.min (Z.of_nat (String.length s + 1) - 1)
                      (Z.of_nat (String.length s + 1))))
    with (Z.of_nat (String.length s)) by lia.
  replace (Z.min 0 (Z.of_nat (String.length s))) with 0%Z by lia.
  replace (Z.max 0 (Z.of_nat (String.length s)) - 0)%Z
    with (Z.of_nat (String.length s)) by lia.
  rewrite Nat2Z.id. apply substring_head.
Qed.

(** [s.substring(from)] from the end of a known prefix. *)
Lemma substring_from_prefix p t :
  substring (p +:+ t) (Z.of_nat (String.length p)) None = t.
Proof.
  unfold substring. rewrite length_append.
  replace (Z.max 0 (Z.min (Z.of_nat (String.length p))
                      (Z.of_nat (String.length p + String.length t))))
    with (Z.of_nat (String.length p)) by lia.
  replace (Z.min (Z.of_nat (String.length p))
             (Z.of_nat (String.length p + String.length t)))
    with (Z.of_nat (String.length p)) by lia.
  replace (Z.max (Z.of_nat (String.length p))
             (Z.of_nat (String.length p + String.length t))
           - Z.of_nat (String.length p))%Z
    with (Z.of_nat (String.length t)) by lia.
  rewrite !Nat2Z.id. apply substring_tail.
Qed.

(** [s.substring(0, to)] up to the end of a known prefix. *)
Lemma substring_to_prefix p t :
  substring (p +:+ t) 0 (Some (Z.of_nat (String.length p))) = p.
Proof.
  unfold substring. rewrite length_append.
  replace (Z.max 0 (Z.min 0 (Z.of_nat (String.length p + String.length t))))
    with 0%Z by lia.
  replace (Z.max 0 (Z.min (Z.of_nat (String.length p))
                      (Z.of_nat (String.length p + String.length t))))
    with (Z.of_nat (String.length p)) by lia.
  replace (Z.min 0 (Z.of_nat (String.length p))) with 0%Z by lia.
  replace (Z.max 0 (Z.of_nat (String.length p)) - 0)%Z
    with (Z.of_nat (String.length p)) by lia.
  rewrite Nat2Z.id. apply substring_head.
Qed.

Lemma indexOf_prefix p t : indexOf (p +:+ t) p = 0%Z.
Proof.
  unfold indexOf.
  destruct (p +:+ t) as [| c s] eqn:E.
  - destruct p; [reflexivity | discriminate].
  - assert (Hp : String.prefix p (String c s) = true).
    { apply prefix_correct. rewrite <- E. apply substring_head. }
    cbn [String.index]. now rewrite Hp.
Qed.

(** ** Decimal numerals *)

Definition is_decimal (c : ascii) : bool :=
  ((48 <=? nat_of_ascii c) && (nat_of_ascii c <=? 57))%nat.

Fixpoint all_decimal (s : string) : bool :=
  match s with
  | EmptyString => true
  | String c rest => is_decimal c && all_decimal rest
  end.

Lemma numeral_all_decimal u : all_decimal (NilEmpty.string_of_uint u) = true.
Proof. induction u; simpl; auto. Qed.

(** The first [']'] after a numeral is right behind it. *)
Lemma indexOf_bracket_after_numeral d rest :
  all_decimal d = true ->
  indexOf (d +:+ String "]" rest) "]" = Z.of_nat (String.length d).
Proof.
  unfold indexOf. intros Hd.
  assert (H : String.index 0 "]" (d +:+ String "]" rest) = Some (String.length d)).
  { induction d as [| c d IH].
    - change ("" +:+ String "]" rest) with (String "]" rest).
      cbn [String.index String.prefix].
      now destruct (ascii_dec "]" "]"), rest.
    - simpl in Hd. apply andb_prop in Hd as [Hc Hd].
    rewrite append_cons.
    cbn [String.index String.prefix].
    destruct (ascii_dec "]" c) as [<- | _]; [discriminate |].
    rewrite (IH Hd). reflexivity. }
  now rewrite H.
Qed.

Lemma digits_of_numeral u : forall acc,
  (0 <= acc)%Z ->
  digits 10 (Some acc) (NilEmpty.string_of_uint u)
  = Some (Z.of_nat (Nat.of_uint_acc u (Z.to_nat acc))).
Proof.
  induction u; intros acc Hacc; [simpl; f_equal; lia | ..];
    cbn [NilEmpty.string_of_uint Nat.of_uint_acc digits];
    cbv [digit_value]; simpl;
    rewrite IHu by lia; rewrite Nat.tail_mul_spec;
    do 3 f_equal; lia.
Qed.

(** Evaluate a test on a character that is known. *)
Ltac eval_char f :=
  repeat match goal with
         | |- context [f ?c] =>
             let v := eval vm_compute in (f c) in change (f c) with v
         end.

(** [parseInt] reads a numeral back. *)
Lemma parseInt_numeral n : parseInt (string_of_nat n) = Some (Z.of_nat n).
Proof.
  unfold string_of_nat.
  rewrite <- (Unsigned.of_to n) at 2.
  assert (Hnil : Nat.to_uint n <> Decimal.Nil).
  { intros E. pose proof (Unsigned.of_to n) as H. rewrite E in H.
    simpl in H. subst n. discriminate. }
  destruct (Nat.to_uint n) as [| u | u | u | u | u | u | u | u | u | u];
    [congruence | ..].
  1: destruct u.
  all: unfold parseInt, Nat.of_uint;
    cbn [NilEmpty.string_of_uint trimStart Nat.of_uint_acc];
    eval_char is_white_space; cbv iota; cbn [digits];
    eval_char digit_value; cbv iota beta; simpl.
  all: try reflexivity.
  all: rewrite digits_of_numeral by lia; cbn [option_map];
    rewrite Z.mul_1_l; reflexivity.
Qed.

(** ** [retrieveResultInputDescriptorIdx] *)

(** X3.  The handler writes the path of a pushed entry from the template
    [$.input_descriptors[${input_descriptor_idx}]] and reads the index of
    an entry back with [retrieveResultInputDescriptorIdx]: for every index
    the reader returns the index that was written, whatever follows the
    closing bracket.  So the entry pushed for descriptor [idx] is addressed
    to descriptor [idx] and to no other: the comparison
    [input_descriptor_idx === resultInputDescriptorIdx] holds for [idx]
    only. *)
Theorem descriptor_path_round_trip :
  (forall idx rest,
     retrieveResultInputDescriptorIdx
       ("$.input_descriptors[" +:+ string_of_nat idx +:+ "]" +:+ rest)
     = Some (Z.of_nat idx))
  /\ (forall idx source evaluationResult k,
        same_index k
          (retrieveResultInputDescriptorIdx
             (HandlerCheckResult.input_descriptor_path
                (pushed idx source evaluationResult))) = true
        <-> k = idx).
Proof.
  assert (Hread : forall idx rest,
            retrieveResultInputDescriptorIdx
              ("$.input_descriptors[" +:+ string_of_nat idx +:+ "]" +:+ rest)
            = Some (Z.of_nat idx)).
  { intros idx rest. unfold retrieveResultInputDescriptorIdx. cbv zeta.
    rewrite indexOf_prefix, Z.add_0_l, substring_from_prefix.
    change ("]" +:+ rest) with (String "]" rest).
    rewrite indexOf_bracket_after_numeral
      by apply numeral_all_decimal.
    rewrite substring_to_prefix. apply parseInt_numeral. }
  split; [exact Hread |].
  intros idx source ev k. unfold pushed. cbn [HandlerCheckResult.input_descriptor_path].
  change ("$.input_descriptors[" +:+ string_of_nat idx +:+ "]")
    with ("$.input_descriptors[" +:+ string_of_nat idx +:+ "]" +:+ "").
  rewrite Hread. unfold same_index. rewrite Z.eqb_eq. lia.
Qed.

(** ** [concatenatePath] *)

(** What the loop of [concatenatePath] has built after the elements [xs]. *)
Lemma dotted_loop xs : forall acc,
  fold_left (fun completePath x => completePath +:+ (toString x +:+ ".")) xs acc
  = acc +:+ fold_right (fun x rest => toString x +:+ "." +:+ rest) "" xs.
Proof.
  induction xs as [| x xs IH]; intros acc; simpl.
  - now rewrite append_nil_r.
  - rewrite IH. now rewrite !append_assoc.
Qed.

Lemma dotted_join x xs :
  fold_right (fun x rest => toString x +:+ "." +:+ rest) "" (x :: xs)
  = join "." (map toString (x :: xs)) +:+ ".".
Proof.
  revert x. induction xs as [| y xs IH]; intros x.
  - reflexivity.
  - change (fold_right _ "" (x :: y :: xs))
      with (toString x +:+ "." +:+
            fold_right (fun x rest => toString x +:+ "." +:+ rest) "" (y :: xs)).
    rewrite IH.
    change (join "." (map toString (x :: y :: xs)))
      with (toString x +:+ "." +:+ join "." (map toString (y :: xs))).
    now rewrite !append_assoc.
Qed.

(** A component of a concrete path, as a JSONPath evaluation reports it:
    a property name or an array index. *)
Inductive Component : Type :=
| Name (name : string)
| Index (index : N).

Definition component_value (c : Component) : JSON :=
  match c with
  | Name name => JStr name
  | Index index => JNum (Z.of_N index)
  end.

(** An array index is below 2^32: a number that string concatenation prints
    as its decimal digits. *)
Definition array_index (c : Component) : Prop :=
  match c with
  | Name _ => True
  | Index index => (index < 2 ^ 32)%N
  end.

(** The component, as string concatenation prints it. *)
Definition component_text (c : Component) : string :=
  match c with
  | Name name => name
  | Index index => string_of_Z (Z.of_N index)
  end.

Lemma concatenatePath_of_array xs :
  concatenatePath (JArr xs) = join "." (map toString xs).
Proof.
  unfold concatenatePath. cbv zeta. simpl elements.
  destruct xs as [| x xs]; [reflexivity |].
  rewrite dotted_loop. change ("" +:+ ?s) with s.
  rewrite dotted_join. apply substring_without_last.
Qed.

(** X4.  For a path that is an array of property names and array indices,
    [concatenatePath] returns the components in order, a name as it is and
    an index as its decimal digits, with one dot between neighbours, none
    in front and none behind; the empty path gives the empty string.  So a
    name that contains a dot reads like two names. *)
Theorem concatenatePath_joins_with_dots components :
  Forall array_index components ->
  concatenatePath (JArr (map component_value components))
  = join "." (map component_text components)
  /\ (forall a b,
        concatenatePath (JArr (map component_value [Name (a +:+ "." +:+ b)]))
        = concatenatePath (JArr (map component_value [Name a; Name b]))).
Proof.
  intros _. split.
  - rewrite concatenatePath_of_array, map_map. f_equal.
    apply map_ext. now intros [name | index].
  - intros a b. now rewrite !concatenatePath_of_array.
Qed.

(** The theorem on the path of the first type of a credential. *)
Lemma concatenatePath_joins_with_dots_witness :
  concatenatePath (JArr [JStr "$"; JStr "type"; JNum 0]) = "$.type.0".
Proof.
  exact (proj1 (concatenatePath_joins_with_dots
                  [Name "$"; Name "type"; Index 0]
                  ltac:(repeat constructor))).
Defined.

End PathProperties.

(* ================================================================== *)
(** * What a run of the handler depends on, and how runs compose       *)
(* ================================================================== *)

Module LogProperties.
Import PredicateRelatedFieldEvaluationHandler PredicateRelatedFieldProperties.

(** ** Only ['FilterEvaluation'] entries count *)

Lemma results_for_field_filter idx f log :
  results_for_field idx f log
  = results_for_field idx f (List.filter is_filter_entry log).
Proof.
  unfold results_for_field.
  induction log as [| r log IH]; [reflexivity |]. simpl.
  destruct (is_filter_entry r) eqn:E; simpl.
  - now rewrite IH.
  - now rewrite no_filter_entry_no_result.
Qed.

Lemma results_for_descriptor_filter idx d log :
  results_for_descriptor idx d log
  = results_for_descriptor idx d (List.filter is_filter_entry log).
Proof.
  unfold results_for_descriptor.
  destruct (InputDescriptor.constraints d) as [c|]; [| reflexivity].
  destruct (Constraints.fields c) as [fs|]; [| reflexivity].
  induction fs as [| f fs IH]; simpl; [reflexivity |].
  now rewrite IH, results_for_field_filter.
Qed.

Lemma appended_filter pd log :
  appended pd log = appended pd (List.filter is_filter_entry log).
Proof.
  unfold appended.
  generalize 0 as from.
  induction (PresentationDefinition.input_descriptors pd) as [| d ds IH];
    intros from; simpl; [reflexivity |].
  now rewrite IH, results_for_descriptor_filter.
Qed.

Lemma filter_inert log : inert log -> List.filter is_filter_entry log = [].
Proof.
  induction 1 as [| r log Hr _ IH]; [reflexivity |]. simpl. now rewrite Hr.
Qed.

Lemma inert_appended pd log : inert (appended pd log).
Proof. apply inert_results_for_descriptors. Qed.

(** X5.  What a run appends is decided by the ['FilterEvaluation'] entries
    of the log alone: two logs with the same ['FilterEvaluation'] entries,
    in the same order, get the same entries appended, whatever entries of
    other evaluators they hold and wherever those stand. *)
Theorem handle_reads_filter_entries_only pd _p log1 log2 :
  List.filter is_filter_entry log1 = List.filter is_filter_entry log2 ->
  exists added,
    handle pd _p log1 = Normal (_p, log1 ++ added)
    /\ handle pd _p log2 = Normal (_p, log2 ++ added).
Proof.
  intros Hsame. exists (appended pd log1).
  split; [apply handle_closed_form |].
  rewrite handle_closed_form.
  now rewrite (appended_filter pd log2), <- Hsame, <- appended_filter.
Qed.

(** The theorem on the log of the age example, alone and between two
    entries of other evaluators. *)
Lemma handle_reads_filter_entries_only_witness :
  exists added,
    handle (Scenario.definition [Scenario.age_field Preferred]) JNull
      [Scenario.age_entry]
    = Normal (JNull, [Scenario.age_entry] ++ added)
    /\ handle (Scenario.definition [Scenario.age_field Preferred]) JNull
         [Scenario.predicate_entry JNull; Scenario.age_entry;
          Scenario.predicate_entry (JNum 7)]
       = Normal (JNull,
                 [Scenario.predicate_entry JNull; Scenario.age_entry;
                  Scenario.predicate_entry (JNum 7)] ++ added).
Proof.
  exact (handle_reads_filter_entries_only
           (Scenario.definition [Scenario.age_field Preferred]) JNull
           [Scenario.age_entry]
           [Scenario.predicate_entry JNull; Scenario.age_entry;
            Scenario.predicate_entry (JNum 7)] eq_refl).
Defined.

(** X6.  [handle] is not idempotent.  The entries it appends are entries of
    ['PredicateRelatedField'], which it never reads; the
    ['FilterEvaluation'] entries it read are still in the log.  A second
    run over the log that the first one left appends the same entries once
    more. *)
Theorem second_run_appends_again pd _p log :
  exists added,
    handle pd _p log = Normal (_p, log ++ added)
    /\ handle pd _p (log ++ added) = Normal (_p, (log ++ added) ++ added)
    /\ Forall (fun r => HandlerCheckResult.evaluator r = "PredicateRelatedField")
         added.
Proof.
  exists (appended pd log).
  split; [apply handle_closed_form |]. split.
  - assert (Hsame : appended pd (log ++ appended pd log) = appended pd log).
    { rewrite (appended_filter pd (log ++ _)), List.filter_app.
      rewrite (filter_inert _ (inert_appended pd log)), app_nil_r.
      symmetry. apply appended_filter. }
    now rewrite handle_closed_form, Hsame.
  - apply List.Forall_forall. intros n Hn.
    unfold appended in Hn.
    apply in_results_for_descriptors in Hn
      as (k & d & c & fs & f & r & _ & _ & _ & _ & _ & _ & ->).
    reflexivity.
Qed.

(** ** Runs that append nothing *)

Definition has_predicate (f : Field.t) : bool :=
  match Field.predicate f with Some _ => true | None => false end.

(** The fields of a definition, descriptor after descriptor. *)
Definition all_fields (pd : PresentationDefinition.t) : list Field.t :=
  flat_map (fun d =>
              match InputDescriptor.constraints d with
              | Some c => default [] (Constraints.fields c)
              | None => []
              end)
    (PresentationDefinition.input_descriptors pd).

Lemma matched_has_predicate idx f r :
  matched idx f r = true -> has_predicate f = true /\ is_filter_entry r = true.
Proof.
  unfold matched, entry_qualifies, field_qualifies, has_predicate, is_filter_entry.
  rewrite !andb_true_iff. tauto.
Qed.

Lemma length_results_for_entry idx f r :
  length (results_for_entry idx f r)
  <= (if has_predicate f then 1 else 0) * (if is_filter_entry r then 1 else 0).
Proof.
  unfold results_for_entry.
  destruct (matched idx f r) eqn:Hm; simpl; [| lia].
  apply matched_has_predicate in Hm as [-> ->]. simpl. lia.
Qed.

Lemma length_results_for_field idx f log :
  length (results_for_field idx f log)
  <= (if has_predicate f then 1 else 0)
     * length (List.filter is_filter_entry log).
Proof.
  unfold results_for_field.
  induction log as [| r log IH]; simpl; [lia |].
  rewrite length_app.
  pose proof (length_results_for_entry idx f r) as Hr.
  destruct (is_filter_entry r), (has_predicate f); simpl in *; lia.
Qed.

Lemma length_results_for_fields idx fs log :
  length (flat_map (fun f => results_for_field idx f log) fs)
  <= length (List.filter has_predicate fs)
     * length (List.filter is_filter_entry log).
Proof.
  induction fs as [| f fs IH]; simpl; [lia |].
  rewrite length_app.
  pose proof (length_results_for_field idx f log) as Hf.
  destruct (has_predicate f); simpl in *; lia.
Qed.

Lemma length_results_for_descriptors ds log : forall from,
  length (results_for_descriptors from ds log)
  <= length (List.filter has_predicate
               (flat_map (fun d =>
                            match InputDescriptor.constraints d with
                            | Some c => default [] (Constraints.fields c)
                            | None => []
                            end) ds))
     * length (List.filter is_filter_entry log).
Proof.
  induction ds as [| d ds IH]; intros from; simpl; [lia |].
  rewrite length_app, List.filter_app, length_app.
  specialize (IH (S from)).
  assert (Hd : length (results_for_descriptor from d log)
               <= length (List.filter has_predicate
                            match InputDescriptor.constraints d with
                            | Some c => default [] (Constraints.fields c)
                            | None => []
                            end)
                  * length (List.filter is_filter_entry log)).
  { unfold results_for_descriptor.
    destruct (InputDescriptor.constraints d) as [c|]; simpl; [| lia].
    destruct (Constraints.fields c) as [fs|]; simpl; [| lia].
    apply length_results_for_fields. }
  nia.
Qed.

(** X7.  The log grows by at most one entry for each pair of a field with
    a predicate and a ['FilterEvaluation'] entry.  With no such field in
    the definition, or no such entry in the log, [handle] leaves the log as
    it found it. *)
Theorem handle_growth_is_bounded pd _p log :
  exists added,
    handle pd _p log = Normal (_p, log ++ added)
    /\ length added
       <= length (List.filter has_predicate (all_fields pd))
          * length (List.filter is_filter_entry log)
    /\ (List.filter has_predicate (all_fields pd) = [] -> added = [])
    /\ (List.filter is_filter_entry log = [] -> added = []).
Proof.
  exists (appended pd log).
  split; [apply handle_closed_form |].
  assert (Hlen : length (appended pd log)
                 <= length (List.filter has_predicate (all_fields pd))
                    * length (List.filter is_filter_entry log))
    by apply length_results_for_descriptors.
  split; [exact Hlen |]. split.
  - intros Hnone. rewrite Hnone in Hlen. simpl in Hlen.
    destruct (appended pd log); [reflexivity | simpl in Hlen; lia].
  - intros Hnone. rewrite Hnone in Hlen. simpl in Hlen.
    destruct (appended pd log); [reflexivity | simpl in Hlen; lia].
Qed.

(** ** Entries addressed to no descriptor *)

(** The entry names a descriptor of the definition. *)
Definition addressed (pd : PresentationDefinition.t) (r : HandlerCheckResult.t)
  : Prop :=
  exists k,
    k < length (PresentationDefinition.input_descriptors pd)
    /\ retrieveResultInputDescriptorIdx
         (HandlerCheckResult.input_descriptor_path r) = Some (Z.of_nat k).

(** X16.  An entry triggers a result only for the descriptor whose index
    its [input_descriptor_path] reads as.  When no entry of the log reads
    as an index of the definition (the path has no number where
    [parseInt] looks for one, or the number is beyond the last
    descriptor), [handle] leaves the log as it found it, whatever the
    entries carry. *)
Theorem unaddressed_entries_trigger_nothing pd _p log :
  (forall r, In r log -> ~ addressed pd r) ->
  handle pd _p log = Normal (_p, log).
Proof.
  intros Hnone. rewrite handle_closed_form.
  destruct (appended pd log) as [| n added] eqn:E; [now rewrite app_nil_r |].
  exfalso.
  assert (Hn : In n (appended pd log)) by (rewrite E; now left).
  unfold appended in Hn.
  apply in_results_for_descriptors in Hn
    as (k & d & c & fs & f & r & Hk & _ & _ & _ & Hr & Hm & _).
  apply (Hnone r Hr). exists k. split.
  - now apply lookup_lt_Some in Hk.
  - unfold matched, entry_qualifies in Hm.
    rewrite !andb_true_iff in Hm. destruct Hm as [[_ Hidx] _].
    simpl in Hidx. unfold same_index in Hidx.
    destruct (retrieveResultInputDescriptorIdx _) as [z|]; [| discriminate].
    apply Z.eqb_eq in Hidx. now subst z.
Qed.

(** The age entry, addressed to a sixth descriptor. *)
Definition stray_entry : HandlerCheckResult.t :=
  HandlerCheckResult.mk "$.input_descriptors[5]" "$.verifiableCredential[0]"
    "FilterEvaluation" INFO None Scenario.age_payload.

(** The theorem on a run for a definition with one descriptor. *)
Lemma unaddressed_entries_trigger_nothing_witness :
  handle (Scenario.definition [Scenario.age_field Preferred]) JNull [stray_entry]
  = Normal (JNull, [stray_entry]).
Proof.
  apply (unaddressed_entries_trigger_nothing
           (Scenario.definition [Scenario.age_field Preferred]) JNull
           [stray_entry]).
  intros r [<- | []] (k & Hk & Hread).
  assert (E : retrieveResultInputDescriptorIdx
                (HandlerCheckResult.input_descriptor_path stray_entry)
              = Some 5%Z) by reflexivity.
  rewrite E in Hread. injection Hread as Hread. simpl in Hk. lia.
Defined.

End LogProperties.

(* ================================================================== *)
(** * More of the facade                                               *)
(* ================================================================== *)

Module FacadeProperties.
Import PEX PEXProperties.

(** ** [constructPresentation] on its own result *)

Lemma push_included s array :
  includes array s = true -> push_unless_included s array = array.
Proof. unfold push_unless_included. now intros ->. Qed.

(** A second call on a base that already has what the call would add. *)
Lemma constructPresentation_on_a_complete_base p context type
  selectedCredentials holder embedded :
  IPresentation.context p = JArr context ->
  IPresentation.type p = JArr type ->
  includes context credentials_v1 = true ->
  includes type "VerifiablePresentation" = true ->
  (forall submission,
     embedded = Some submission ->
     IPresentation.presentation_submission p = Some submission
     /\ includes type "PresentationSubmission" = true
     /\ includes context submission_v1 = true) ->
  let q :=
    constructPresentation selectedCredentials
      (Some {| ConstructOpts.presentationSubmission := embedded;
               ConstructOpts.holderDID := holder;
               ConstructOpts.basePresentationPayload := Some p |}) in
  IPresentation.context q = IPresentation.context p
  /\ IPresentation.type q = IPresentation.type p
  /\ IPresentation.presentation_submission q
     = IPresentation.presentation_submission p
  /\ IPresentation.additional q = IPresentation.additional p
  /\ IPresentation.holder q = holder.
Proof.
  intros Hc Ht Hic Hit Hemb. unfold credentials_v1, submission_v1 in *.
  unfold constructPresentation, initial_context, initial_type. simpl.
  rewrite Hc, Ht. simpl.
  rewrite (push_included _ context Hic), (push_included _ type Hit).
  destruct embedded as [submission|]; simpl.
  - destruct (Hemb submission eq_refl) as (Hps & Hips & Hics).
    rewrite (push_included _ type Hips), (push_included _ context Hics).
    rewrite Hps. repeat split.
  - repeat split.
Qed.

(** X8.  A presentation that [constructPresentation] returned can be
    handed back as [basePresentationPayload]: with the same submission, or
    with none, the second call adds nothing to ['@context'] and [type],
    keeps the embedded submission and every other property of the base;
    [holder] is that of the second call. *)
Theorem constructPresentation_on_its_own_result
  selectedCredentials opts selectedAgain holderAgain :
  let p := constructPresentation selectedCredentials opts in
  let again embedded :=
    constructPresentation selectedAgain
      (Some {| ConstructOpts.presentationSubmission := embedded;
               ConstructOpts.holderDID := holderAgain;
               ConstructOpts.basePresentationPayload := Some p |}) in
  let same q :=
    IPresentation.context q = IPresentation.context p
    /\ IPresentation.type q = IPresentation.type p
    /\ IPresentation.presentation_submission q
       = IPresentation.presentation_submission p
    /\ IPresentation.additional q = IPresentation.additional p
    /\ IPresentation.holder q = holderAgain in
  same (again (opts ≫= ConstructOpts.presentationSubmission))
  /\ same (again None).
Proof.
  cbv zeta.
  destruct (constructPresentation_well_typed selectedCredentials opts)
    as (context & type & ac & at_ & Hc & Ht & _ & _ & Hic & Hit & Hemb & _).
  split.
  - exact (constructPresentation_on_a_complete_base _ context type _ _ _
             Hc Ht Hic Hit Hemb).
  - apply (constructPresentation_on_a_complete_base _ context type _ _ None
             Hc Ht Hic Hit).
    discriminate.
Qed.

(** ** What [evaluatePresentation] returns *)

(** X9.  When [evaluatePresentation] returns, it returns what [evaluate]
    answered on the wrapper that the object held before the call, run on
    the credentials of the wrapped copy, with [holderDIDs] replaced by the
    holder of the presentation; the object holds that wrapper's next
    state.  Of the answer, at most [errors] is changed, to the empty list,
    and only for an answer with a descriptor: [value], [warnings],
    [verifiableCredential] and [areRequiredCredentialsPresent] are the
    evaluation's own (no status is filled in). *)
Theorem evaluatePresentation_returns_the_evaluation `{Collaborators}
  presentationDefinition presentation opts st returned st' :
  evaluatePresentation presentationDefinition presentation opts st
  = (Normal returned, st') ->
  exists copy wrapped h1 updatedOpts result w h2,
    parse_stringify (default JUndefined (heap st !! presentation)) = Normal copy
    /\ mapExternalVerifiablePresentationToWrappedVP (length (heap st))
         (heap st ++ [copy]) = (wrapped, h1)
    /\ wrapper_evaluate (_evaluationClientWrapper st)
         (toInternalPresentationDefinition presentationDefinition)
         (WrappedVerifiablePresentation.vcs wrapped) (Some updatedOpts) h1
       = (result, w, h2)
    /\ Opts.holderDIDs updatedOpts
       = Some (singleton_if_truthy
                 (IPresentation.holder
                    (WrappedVerifiablePresentation.presentation wrapped)))
    /\ Opts.limitDisclosureSignatureSuites updatedOpts
       = opts ≫= Opts.limitDisclosureSignatureSuites
    /\ _evaluationClientWrapper st' = w
    /\ (returned = result
        \/ returned = EvaluationResults.set_errors (Some []) result
           /\ has_descriptors result = true)
    /\ EvaluationResults.value returned = EvaluationResults.value result
    /\ EvaluationResults.areRequiredCredentialsPresent returned
       = EvaluationResults.areRequiredCredentialsPresent result.
Proof.
  unfold evaluatePresentation, mbind, deep_copy.
  destruct (parse_stringify _) as [copy | e] eqn:Hcopy; [| discriminate].
  unfold call, call_this, call_on, ret, throw. simpl.
  destruct (mapExternalVerifiablePresentationToWrappedVP _ _) as [wrapped h1]
    eqn:Hwrap.
  simpl.
  destruct (negb _ && negb _); [discriminate |].
  match goal with
  | |- context [wrapper_evaluate ?w ?pd ?r (Some ?o) ?h] =>
      destruct (wrapper_evaluate w pd r (Some o) h) as [[result w1] h2] eqn:Hev;
      set (updatedOpts := o) in *
  end.
  simpl.
  destruct (has_descriptors result) eqn:Hd; simpl.
  - destruct (wrapper_selectFrom _ _ _ _ h2) as [[sel w2] h3]. simpl.
    destruct (negb _); intros [= <- <-];
      exists copy, wrapped, h1, updatedOpts, result, w1, h2;
      repeat split; auto.
  - intros [= <- <-].
    exists copy, wrapped, h1, updatedOpts, result, w1, h2.
    repeat split; auto.
Qed.

(** The theorem on the wallet's presentation, evaluated by an object that
    served three calls before: the wrapper is in its fourth state, the
    value is the evaluation's and no status is filled in. *)
Lemma evaluatePresentation_returns_the_evaluation_witness :
  exists returned st',
    evaluatePresentation JNull 1
      (Some (Opts.mk None None None None None (Some true)))
      (@mkState PEXScenario.collaborators 3 PEXScenario.wallet)
    = (Normal returned, st')
    /\ _evaluationClientWrapper st' = 4
    /\ EvaluationResults.value returned = Some (PEXScenario.submission 1)
    /\ EvaluationResults.areRequiredCredentialsPresent returned = None.
Proof.
  destruct (evaluatePresentation JNull 1
              (Some (Opts.mk None None None None None (Some true)))
              (@mkState PEXScenario.collaborators 3 PEXScenario.wallet))
    as [[returned | e] st'] eqn:Hrun; [| discriminate].
  exists returned, st'. split; [reflexivity |].
  destruct (evaluatePresentation_returns_the_evaluation
              (H := PEXScenario.collaborators) _ _ _ _ _ _ Hrun)
    as (copy & wrapped & h1 & uo & result & w & h2
        & Hcopy & Hwrap & Hev & _ & _ & Hw & _ & Hvalue & Hstatus).
  vm_compute in Hcopy. injection Hcopy as <-.
  vm_compute in Hwrap. injection Hwrap as <- <-.
  vm_compute in Hev. injection Hev as <- <- <-.
  split; [exact Hw |]. split; [exact Hvalue | exact Hstatus].
Defined.

(** ** What [evaluateCredentials] can change *)

(** X13.  [evaluateCredentials] makes no copy: its collaborators work on
    the list the caller handed over.  With collaborators that change at
    most the object they are handed, the call changes no other object that
    was on the heap before it: only the caller's list can have another
    content afterwards. *)
Theorem evaluateCredentials_changes_the_list_only
  `{C : Collaborators} {F : Framed C}
  presentationDefinition verifiableCredentials opts st l :
  l < length (heap st) ->
  l <> verifiableCredentials ->
  heap (evaluateCredentials presentationDefinition verifiableCredentials opts st).2
    !! l
  = heap st !! l.
Proof.
  intros Hl Hne.
  unfold evaluateCredentials, mbind, call, call_this, call_on,
    set_evaluationClientWrapper, ret.
  pose proof (wrapped_credentials_frame verifiableCredentials (heap st))
    as [[Hlen1 Hwrap] Hwhere].
  destruct (mapExternalVerifiableCredentialsToWrappedVcs _ (heap st))
    as [wrapped h1].
  simpl in *.
  assert (Hother : l <> wrapped) by (destruct Hwhere; lia).
  match goal with
  | |- context [wrapper_evaluate ?w ?pd ?r ?o ?h] =>
      pose proof (evaluate_frame w pd r o h) as [Hlen2 Hev];
      destruct (wrapper_evaluate w pd r o h) as [[result w1] h2]
  end.
  simpl in *.
  destruct (has_descriptors result); simpl.
  - match goal with
    | |- context [wrapper_selectFrom ?w ?pd ?r ?o ?h] =>
        pose proof (selectFrom_frame w pd r o h) as [Hlen3 Hsel];
        destruct (wrapper_selectFrom w pd r o h) as [[sel w2] h3]
    end.
    simpl in *.
    rewrite Hsel, Hev, Hwrap by lia. reflexivity.
  - rewrite Hev, Hwrap by lia. reflexivity.
Qed.

(** The theorem on the wallet: evaluating the list at 0 leaves the
    presentation at 1 as it was, while the list itself is redacted. *)
Lemma evaluateCredentials_changes_the_list_only_witness :
  heap (evaluateCredentials JNull 0 None PEXScenario.start).2 !! 1
  = PEXScenario.wallet !! 1
  /\ heap (evaluateCredentials JNull 0 None PEXScenario.start).2 !! 0
     <> PEXScenario.wallet !! 0.
Proof.
  split.
  - exact (evaluateCredentials_changes_the_list_only
             (F := scenario_collaborators_framed)
             JNull 0 None PEXScenario.start 1 (le_n 2) (Nat.neq_succ_0 0)).
  - discriminate.
Defined.

End FacadeProperties.

(* ================================================================== *)
(** * [verifiablePresentationFrom]                                     *)
(* ================================================================== *)

Module SigningProperties.
Import PEX PEXProperties.

Definition proof_type_missing : Exception :=
  ErrorObject "Please provide a proof type if you enable selective disclosure".

(** A signing callback that signs nothing: it answers the presentation it
    was handed, as an object. *)
Definition echo `{Collaborators}
  (callBackParams : PresentationSignCallBackParams.t) : M JSON :=
  ret (object_of (PresentationSignCallBackParams.presentation callBackParams)).

(** With the default location the call goes all the way: the wallet's list
    is evaluated, the presentation built with the submission embedded,
    evaluated again, and the callback's answer returned. *)
Example verifiablePresentationFrom_returns :
  exists verifiablePresentation st',
    verifiablePresentationFrom (H := PEXScenario.collaborators)
      "2022-01-01T00:00:00.000Z" JNull 0 echo
      (VerifiablePresentationFromOpts.mk (Some "did:example:holder") None None
         None None)
      PEXScenario.start
    = (Normal
         (VerifiablePresentationResult.mk verifiablePresentation PRESENTATION
            (PEXScenario.submission 2)),
       st')
    /\ member verifiablePresentation "holder" = JStr "did:example:holder".
Proof. eexists _, _. split; reflexivity. Qed.

(** ** The proof type *)

(** X10.  With [proofOptions.typeSupportsSelectiveDisclosure] set and no
    [proofOptions.type] (none, or the empty string),
    [verifiablePresentationFrom] throws the [Error] that asks for a proof
    type before anything else happens: no credential is evaluated, the
    callback is not called, and the object and every other object are as
    they were. *)
Theorem selective_disclosure_needs_a_proof_type `{Collaborators}
  now presentationDefinition selectedCredentials signingCallBack opts st :
  VerifiablePresentationFromOpts.proofOptions opts
    ≫= ProofOptions.typeSupportsSelectiveDisclosure = Some true ->
  singleton_if_truthy
    (VerifiablePresentationFromOpts.proofOptions opts ≫= ProofOptions.type) = [] ->
  verifiablePresentationFrom now presentationDefinition selectedCredentials
    signingCallBack opts st
  = (Throw proof_type_missing, st).
Proof.
  intros Hsd Htype.
  unfold verifiablePresentationFrom, mbind, lift, limitedDisclosureSuites.
  rewrite Hsd.
  destruct (VerifiablePresentationFromOpts.proofOptions opts ≫= ProofOptions.type)
    as [type|]; [| reflexivity].
  simpl in Htype. destruct (String.eqb type ""); [reflexivity | discriminate].
Qed.

Lemma selective_disclosure_needs_a_proof_type_witness :
  verifiablePresentationFrom (H := PEXScenario.collaborators)
    "2022-01-01T00:00:00.000Z" JNull 0 echo
    (VerifiablePresentationFromOpts.mk None None None None
       (Some (ProofOptions.mk None (Some true) None None None None None)))
    PEXScenario.start
  = (Throw proof_type_missing, PEXScenario.start).
Proof.
  exact (selective_disclosure_needs_a_proof_type
           (H := PEXScenario.collaborators)
           "2022-01-01T00:00:00.000Z" JNull 0 echo
           (VerifiablePresentationFromOpts.mk None None None None
              (Some (ProofOptions.mk None (Some true) None None None None None)))
           PEXScenario.start eq_refl eq_refl).
Defined.

(** ** The location [EXTERNAL] *)

Lemma assoc_app_none k ps qs :
  assoc k ps = None -> assoc k (ps ++ qs) = assoc k qs.
Proof.
  induction ps as [| [k' v] ps IH]; simpl; [reflexivity |].
  destruct (String.eqb k k'); [discriminate | exact IH].
Qed.










(** ** A call that returns *)



End SigningProperties.

(* ================================================================== *)
(** * The deep copy of [selectFrom] and [evaluatePresentation]         *)
(* ================================================================== *)

Module CopyProperties.
Import PEX PEXProperties.

(** A value with a JSON text that reads back as the value itself: no
    [undefined] anywhere in it. *)
Fixpoint plain (v : JSON) : bool :=
  match v with
  | JUndefined => false
  | JArr xs => forallb plain xs
  | JObj ps => forallb (fun kx => plain kx.2) ps
  | _ => true
  end.

Lemma copied_element x :
  x <> JUndefined ->
  match x with JUndefined => JNull | _ => reparse x end = reparse x.
Proof. now destruct x. Qed.

Lemma copied_member (k : string) x :
  x <> JUndefined ->
  match x with JUndefined => [] | _ => [(k, reparse x)] end = [(k, reparse x)].
Proof. now destruct x. Qed.

Lemma plain_defined x : plain x = true -> x <> JUndefined.
Proof. intros Hx ->. discriminate. Qed.

Lemma reparse_plain : forall v, plain v = true -> reparse v = v.
Proof.
  fix IH 1. intros [| | b | n | s | xs | ps] Hv; try reflexivity.
  - simpl in *. f_equal.
    induction xs as [| x xs IHxs]; [reflexivity |].
    simpl in Hv. apply andb_prop in Hv as [Hx Hxs].
    simpl. rewrite (IHxs Hxs), (copied_element x (plain_defined x Hx)).
    now rewrite (IH x Hx).
  - simpl in *. f_equal.
    induction ps as [| [k x] ps IHps]; [reflexivity |].
    simpl in Hv. apply andb_prop in Hv as [Hx Hps].
    simpl. rewrite (IHps Hps), (copied_member k x (plain_defined x Hx)).
    now rewrite (IH x Hx).
Qed.

Lemma undefined_or_not (x : JSON) : x = JUndefined \/ x <> JUndefined.
Proof. destruct x; [now left | right ..]; discriminate. Qed.

Lemma plain_reparse : forall v, v <> JUndefined -> plain (reparse v) = true.
Proof.
  fix IH 1. intros [| | b | n | s | xs | ps] Hv; try reflexivity.
  - congruence.
  - clear Hv. simpl. induction xs as [| x xs IHxs]; [reflexivity |].
    simpl. rewrite IHxs, andb_true_r.
    destruct (undefined_or_not x) as [-> | Hx]; [reflexivity |].
    rewrite (copied_element x Hx). now apply IH.
  - clear Hv. simpl. induction ps as [| [k x] ps IHps]; [reflexivity |].
    simpl. rewrite forallb_app, IHps, andb_true_r.
    destruct (undefined_or_not x) as [-> | Hx]; [reflexivity |].
    rewrite (copied_member k x Hx). simpl. rewrite andb_true_r. now apply IH.
Qed.

(** X15.  The copy is exact on JSON: for a caller's object with no
    [undefined] in it, the new object that [JSON.parse(JSON.stringify(x))]
    makes has the content of the caller's, and [selectFrom] is the wrapping
    and the selection run on a new wrapper over that new object.  Whatever
    the object holds, its copy holds no [undefined], so that a copy of the
    copy is the copy. *)
Theorem deep_copy_is_exact `{Collaborators} (r : Ref) st content :
  heap st !! r = Some content ->
  plain content = true ->
  deep_copy r st
  = (Normal (length (heap st)),
     mkState (_evaluationClientWrapper st) (heap st ++ [content]))
  /\ (forall presentationDefinition opts,
        selectFrom presentationDefinition r opts st
        = mbind
            (call (mapExternalVerifiableCredentialsToWrappedVcs
                     (length (heap st))))
            (fun wrapped =>
               call_this
                 (fun w =>
                    wrapper_selectFrom w
                      (toInternalPresentationDefinition presentationDefinition)
                      wrapped opts))
            (mkState newWrapper (heap st ++ [content])))
  /\ (forall v, v <> JUndefined ->
        plain (reparse v) = true /\ reparse (reparse v) = reparse v).
Proof.
  intros Hcell Hplain.
  assert (Hdef : content <> JUndefined) by (intros ->; discriminate).
  assert (Hcopy : deep_copy r st
                  = (Normal (length (heap st)),
                     mkState (_evaluationClientWrapper st)
                       (heap st ++ [content]))).
  { rewrite (deep_copy_of_content _ _ _ Hcell Hdef).
    now rewrite (reparse_plain _ Hplain). }
  split; [exact Hcopy |]. split.
  - intros pd opts. unfold selectFrom.
    unfold mbind at 1. rewrite Hcopy. reflexivity.
  - intros v Hv. split; [now apply plain_reparse |].
    apply reparse_plain. now apply plain_reparse.
Qed.

(** The theorem on the wallet's list of two credentials. *)
Lemma deep_copy_is_exact_witness :
  deep_copy 0 PEXScenario.start
  = (Normal 2,
     @mkState PEXScenario.collaborators 0
       (PEXScenario.wallet
        ++ [JArr [PEXScenario.credential "Alice"; PEXScenario.credential "Bob"]])).
Proof.
  exact (proj1 (deep_copy_is_exact (H := PEXScenario.collaborators)
                  0 PEXScenario.start
                  (JArr [PEXScenario.credential "Alice";
                         PEXScenario.credential "Bob"])
                  eq_refl eq_refl)).
Defined.

End CopyProperties.
